(** * Device automation discovery (homeassistant/components/device_automation)

    A shallow embedding of [homeassistant/components/device_automation/__init__.py]:
    the per-domain fetch [_async_get_device_automations_from_domain], the
    aggregation [_async_get_device_automations] with its [asyncio.gather]
    fan-out, and the three websocket handlers.

    Coroutines are modelled as finite step trees: every step emits the event
    of the call it issues and is a point at which the event loop may switch
    to another task.  The registries and the plugin loader are read-only
    interfaces carried by the [HomeAssistant] record. *)

From Stdlib Require Import Ascii String.
From stdpp Require Import gmap strings list.

Set Default Proof Using "Type".
Open Scope string_scope.
Open Scope list_scope.

(** ** Python values that the embedding needs *)

(** A value found in an incoming websocket message. *)
Inductive pyval :=
| PNone
| PBool (b : bool)
| PInt (z : Z)
| PStr (s : string).

(** Exceptions that may leave the aggregation.
    [DeviceNotFound] is the exception raised at line 78 by
    [device.config_entries] when [device_registry.async_get] returned [None];
    [PluginError] is whatever a plugin's listing coroutine raises. *)
Inductive exn :=
| DeviceNotFound (device_id : string)
| PluginError (msg : string).

(** Calls and log lines issued by the per-domain fetches. *)
Inductive event :=
| EvGetIntegration (domain : string)
| EvLogWarning (domain : string)
| EvGetPlatform (domain : string)
| EvListing (domain fname device_id : string).

Global Instance exn_eq_dec : EqDecision exn.
Proof. solve_decision. Defined.
Global Instance event_eq_dec : EqDecision event.
Proof. solve_decision. Defined.

(** ** Coroutines *)

(** A coroutine that either returns, raises, or performs one more step. *)
Inductive coro (R : Type) :=
| Ret (r : R)
| Raise (x : exn)
| Step (e : event) (k : coro R).
Arguments Ret {R} r.
Arguments Raise {R} x.
Arguments Step {R} e k.

(** Running a coroutine alone to its end: the events in order and the
    outcome. *)
Fixpoint coro_events {R} (c : coro R) : list event :=
  match c with
  | Ret _ | Raise _ => []
  | Step e k => e :: coro_events k
  end.

Fixpoint coro_outcome {R} (c : coro R) : exn + R :=
  match c with
  | Ret r => inr r
  | Raise x => inl x
  | Step _ k => coro_outcome k
  end.

(** ** The external interfaces *)

Section Model.

(** Automation descriptors are opaque to this component. *)
Context {Descriptor : Type}.

(** What a plugin's listing coroutine does once awaited: it raises, or it
    returns [None] or a list of descriptors. *)
Definition listing := string → exn + option (list Descriptor).

(** The [device_automation] platform module of an integration, as the map
    from attribute names to the listing functions it defines. *)
Record Integration := {
  (** [integration.get_platform("device_automation")]; [None] stands for
      the [ImportError]. *)
  get_platform : option (gmap string listing)
}.

Record DeviceEntry := { config_entries : gset string }.
Record ConfigEntry := { domain : string }.
Record RegistryEntry := { entity_id : string }.

(** Modelled from the spec: the device registry, the entity registry, the
    config-entry manager and the plugin loader, none of which is part of
    this component.  They are read-only lookups: the device registry
    answers with the device or with a miss, the config-entry manager with
    the entry of an id, the entity registry with the entities of a device,
    the loader with the integration of a domain or with
    [IntegrationNotFound]. *)
Record HomeAssistant := {
  (** [device_registry.async_get(device_id)]. *)
  device_registry_async_get : string → option DeviceEntry;
  (** [hass.config_entries.async_get_entry(entry_id)]. *)
  async_get_entry : string → ConfigEntry;
  (** [async_entries_for_device(entity_registry, device_id)]. *)
  async_entries_for_device : string → list RegistryEntry;
  (** [async_get_integration(hass, domain)]; [None] stands for
      [IntegrationNotFound]. *)
  async_get_integration : string → option Integration
}.

(** Modelled from the spec: [split_entity_id] of [homeassistant.core],
    which is not part of this component.  An entity id is namespaced as
    [<domain>.<object>]; the pieces are those of [entity_id.split(".", 1)]:
    the portion before the first separator and, when there is a separator,
    the rest. *)
Fixpoint split_entity_id (entity_id : string) : list string :=
  match entity_id with
  | EmptyString => [EmptyString]
  | String c rest =>
      if Ascii.eqb c "."%char then [EmptyString; rest]
      else match split_entity_id rest with
           | [] => [String c EmptyString]
           | h :: t => String c h :: t
           end
  end.

(** [l[0]] on a list of strings; [split_entity_id] never returns an empty
    list, so the default is never used. *)
Definition item0 (l : list string) : string := hd EmptyString l.

(** The order in which a Python [set] of strings is enumerated.  It is
    unspecified, so it is a parameter of the model: some enumeration of the
    elements of the set, each once. *)
Record SetOrder := {
  iter : gset string → list string;
  iter_perm : ∀ s, iter s ≡ₚ elements s
}.

(** The order of stdpp's [elements] is one such order. *)
Definition elements_order : SetOrder :=
  {| iter := elements; iter_perm := λ s, reflexivity (elements s) |}.

(** The reverse of it is another one. *)
Definition reverse_order : SetOrder :=
  {| iter := λ s, reverse (elements s);
     iter_perm := λ s, reverse_Permutation (elements s) |}.

(** ** The per-domain fetch (lines 49-66) *)

Definition _async_get_device_automations_from_domain
    (hass : HomeAssistant) (domain fname device_id : string)
    : coro (option (list Descriptor)) :=
  Step (EvGetIntegration domain)
    match async_get_integration hass domain with
    | None => Step (EvLogWarning domain) (Ret None)
    | Some integration =>
        Step (EvGetPlatform domain)
          match get_platform integration with
          | None => Ret None
          | Some platform =>
              match platform !! fname with
              | Some f =>
                  Step (EvListing domain fname device_id)
                    match f device_id with
                    | inl x => Raise x
                    | inr r => Ret r
                    end
              | None => Ret None
              end
          end
    end.

End Model.
Arguments Integration : clear implicits.
Arguments HomeAssistant : clear implicits.
Arguments listing : clear implicits.

(** ** [asyncio.gather] under an arbitrary interleaving

    [gather] wraps every coroutine in a task.  The event loop resumes the
    tasks one step at a time in an order that this component does not
    control: the schedule, a list of task indices.  The caller gets the
    results in the order of the awaitables once every task has returned, or
    the first exception that a task raised; the other tasks are not
    cancelled and run to their end. *)

Module Gather.
Section Gather.
Context {R : Type}.

(** The tasks, the calls issued so far, and the first exception that any
    task has raised so far: that one is what the awaiting caller gets. *)
Record state := {
  tasks : list (coro R);
  trace : list event;
  first_exc : option exn
}.

Definition note_exc (c : coro R) (fe : option exn) : option exn :=
  match fe, c with
  | None, Raise x => Some x
  | _, _ => fe
  end.

Definition init (ts : list (coro R)) : state :=
  {| tasks := ts; trace := []; first_exc := foldl (flip note_exc) None ts |}.

(** The event loop resumes task [i] for one step.  A finished task, or an
    index that names no task, leaves the state as it is. *)
Definition resume (st : state) (i : nat) : state :=
  match tasks st !! i with
  | Some (Step e k) =>
      {| tasks := <[i := k]> (tasks st);
         trace := trace st ++ [e];
         first_exc := note_exc k (first_exc st) |}
  | _ => st
  end.

(** Whatever is still running when the schedule ends is run to its end,
    in index order. *)
Definition finish (st : state) (c : coro R) : state :=
  {| tasks := tasks st;
     trace := trace st ++ coro_events c;
     first_exc := match first_exc st, coro_outcome c with
                  | None, inl x => Some x
                  | fe, _ => fe
                  end |}.

Definition drain (st : state) : state := foldl finish st (tasks st).

(** The results in the order of the awaitables. *)
Fixpoint results (os : list (exn + R)) : exn + list R :=
  match os with
  | [] => inr []
  | inl x :: _ => inl x
  | inr r :: os' =>
      match results os' with
      | inl x => inl x
      | inr rs => inr (r :: rs)
      end
  end.

Definition gather (sched : list nat) (ts : list (coro R))
    : list event * (exn + list R) :=
  let st := drain (foldl resume (init ts) sched) in
  (trace st,
   match first_exc st with
   | Some x => inl x
   | None => results (coro_outcome <$> tasks st)
   end).

(** The first exception in index order among the outcomes of tasks run
    alone. *)
Fixpoint first_raised (os : list (exn + R)) : option exn :=
  match os with
  | [] => None
  | inl x :: _ => Some x
  | inr _ :: os' => first_raised os'
  end.

(** What every reachable state keeps of the tasks it started from. *)
Record inv (ts : list (coro R)) (st : state) : Prop := {
  inv_outcomes : coro_outcome <$> tasks st = coro_outcome <$> ts;
  inv_trace :
    trace st ++ concat (coro_events <$> tasks st)
    ≡ₚ concat (coro_events <$> ts);
  inv_exc : ∀ x, first_exc st = Some x → inl x ∈ coro_outcome <$> ts
}.

(** Two task lists that differ only in tasks that return on both sides are
    interrupted by the same exception, whatever the interleaving. *)
Definition returns (c : coro R) : Prop := ∃ r, coro_outcome c = inr r.

Definition alike (c c' : coro R) : Prop := c = c' ∨ (returns c ∧ returns c').

Definition alike_states (st st' : state) : Prop :=
  Forall2 alike (tasks st) (tasks st') ∧ first_exc st = first_exc st'.

End Gather.
Arguments state : clear implicits.
#[global] Arguments gather : simpl never.
End Gather.

(** ** The aggregation (lines 68-96) *)

Section Aggregation.
Context {Descriptor : Type}.
Implicit Types (hass : HomeAssistant Descriptor) (ord : SetOrder).

(** The result of a request: the calls it issued, and the exception that
    left it or the value it returned. *)
Definition outcome (A : Type) : Type := list event * (exn + A).

(** Lines 75-84: the [domains] set after the two loops. *)
Definition device_domains hass ord (device : DeviceEntry) (device_id : string)
    : gset string :=
  let domains : gset string := ∅ in
  let domains :=
    foldl (λ domains entry_id,
             domains ∪ {[ domain (async_get_entry hass entry_id) ]})
          domains (iter ord (config_entries device)) in
  let entities := async_entries_for_device hass device_id in
  foldl (λ domains entity,
           domains ∪ {[ item0 (split_entity_id (entity_id entity)) ]})
        domains entities.

(** Lines 92-94: [automations.extend] for every result that is not [None]. *)
Definition extend_all (device_automations : list (option (list Descriptor)))
    : list Descriptor :=
  foldl (λ automations device_automation,
           match device_automation with
           | Some l => automations ++ l
           | None => automations
           end)
        [] device_automations.

Definition _async_get_device_automations
    hass ord (sched : list nat) (fname device_id : string)
    : outcome (list Descriptor) :=
  match device_registry_async_get hass device_id with
  | None => ([], inl (DeviceNotFound device_id))
  | Some device =>
      let domains := device_domains hass ord device device_id in
      let '(calls, device_automations) :=
        Gather.gather sched
          ((λ domain,
              _async_get_device_automations_from_domain
                hass domain fname device_id) <$> iter ord domains) in
      match device_automations with
      | inl x => (calls, inl x)
      | inr device_automations => (calls, inr (extend_all device_automations))
      end
  end.

(** ** The websocket handlers (lines 99-142) *)

(** A message that passed the schema of its command. *)
Record Msg := { msg_id : Z; msg_type : string; msg_device_id : string }.

Inductive response :=
| ResultMessage (id : Z) (result : list Descriptor)
| ErrorMessage (id : option Z) (code : string).

(** What a key of a command schema requires of its value: a literal, or
    [str], or the positive integer of the correlation id. *)
Inductive validator :=
| Literal (s : string)
| IsStr
| PositiveInt.

Definition check (v : validator) (x : pyval) : bool :=
  match v, x with
  | Literal s, PStr s' => bool_decide (s = s')
  | IsStr, PStr _ => true
  | PositiveInt, PInt z => bool_decide (0 < z)%Z
  | _, _ => false
  end.

(** The dictionary given to [websocket_command], every key [vol.Required]. *)
Definition schema (command : string) : list (string * validator) :=
  [("type", Literal command); ("device_id", IsStr)].

(** Modelled from the spec: the [websocket_command] decorator of
    [websocket_api], which is not part of this component.  The command
    schema is extended with the required correlation id; a message is
    accepted when every required key is there with a valid value and there
    is no other key, and is otherwise rejected before the handler runs. *)
Definition websocket_command (command : string) (msg : gmap string pyval)
    : option Msg :=
  let sch := ("id", PositiveInt) :: schema command in
  if forallb (λ kv, from_option (check kv.2) false (msg !! kv.1)) sch
     && bool_decide (dom msg ⊆ list_to_set sch.*1)
  then
    match msg !! "id", msg !! "type", msg !! "device_id" with
    | Some (PInt id), Some (PStr type), Some (PStr device_id) =>
        Some {| msg_id := id; msg_type := type; msg_device_id := device_id |}
    | _, _, _ => None
    end
  else None.

(** Modelled from the spec: the [async_response] decorator of
    [websocket_api], which is not part of this component.  An exception
    that leaves the handler becomes an error response for the request. *)
Definition async_response (msg : Msg) (r : outcome response) : list event * response :=
  match r with
  | (calls, inr resp) => (calls, resp)
  | (calls, inl _) => (calls, ErrorMessage (Some (msg_id msg)) "unknown_error")
  end.

Definition websocket_device_automation_list_actions hass ord sched (msg : Msg)
    : list event * response :=
  async_response msg
    (let device_id := msg_device_id msg in
     let '(calls, actions) :=
       _async_get_device_automations hass ord sched "async_get_actions" device_id in
     match actions with
     | inl x => (calls, inl x)
     | inr actions => (calls, inr (ResultMessage (msg_id msg) actions))
     end).

Definition websocket_device_automation_list_conditions hass ord sched (msg : Msg)
    : list event * response :=
  async_response msg
    (let device_id := msg_device_id msg in
     let '(calls, conditions) :=
       _async_get_device_automations hass ord sched "async_get_conditions" device_id in
     match conditions with
     | inl x => (calls, inl x)
     | inr conditions => (calls, inr (ResultMessage (msg_id msg) conditions))
     end).

Definition websocket_device_automation_list_triggers hass ord sched (msg : Msg)
    : list event * response :=
  async_response msg
    (let device_id := msg_device_id msg in
     let '(calls, triggers) :=
       _async_get_device_automations hass ord sched "async_get_triggers" device_id in
     match triggers with
     | inl x => (calls, inl x)
     | inr triggers => (calls, inr (ResultMessage (msg_id msg) triggers))
     end).

(** A raw message arriving for one of the three commands: it is validated
    against the command's schema and, when accepted, handed to the handler. *)
Definition handle
    (command : string) (handler : Msg → list event * response)
    (raw : gmap string pyval) : list event * response :=
  match websocket_command command raw with
  | Some msg => handler msg
  | None =>
      ([], ErrorMessage
             (match raw !! "id" with Some (PInt id) => Some id | _ => None end)
             "invalid_format")
  end.

End Aggregation.

(** ** Notions used to state the properties *)

Section Notions.
Context {Descriptor : Type}.
Implicit Types (hass : HomeAssistant Descriptor) (ord : SetOrder).

(** What one per-domain fetch yields when run alone: the exception it
    raises, or [None] (absent) or the plugin's sequence. *)
Definition fetch hass (domain fname device_id : string)
    : exn + option (list Descriptor) :=
  coro_outcome
    (_async_get_device_automations_from_domain hass domain fname device_id).

(** What a domain contributes to the merged result. *)
Definition contribution hass (fname device_id domain : string)
    : option (list Descriptor) :=
  match fetch hass domain fname device_id with
  | inr r => r
  | inl _ => None
  end.

(** The situations of a domain with respect to the plugin loader. *)
Definition integration_not_found hass (domain : string) : Prop :=
  async_get_integration hass domain = None.

Definition no_capability_module hass (domain : string) : Prop :=
  ∃ integration,
    async_get_integration hass domain = Some integration
    ∧ get_platform integration = None.

Definition operation_not_exposed hass (domain fname : string) : Prop :=
  ∃ integration platform,
    async_get_integration hass domain = Some integration
    ∧ get_platform integration = Some platform
    ∧ platform !! fname = None.

(** The listing operation of a domain for [fname], when it has one. *)
Definition listing_of hass (domain fname : string)
    : option (listing Descriptor) :=
  match async_get_integration hass domain with
  | None => None
  | Some integration =>
      match get_platform integration with
      | None => None
      | Some platform => platform !! fname
      end
  end.

(** The same installation with another answer of the loader for one
    domain. *)
Definition set_integration hass (d : string)
    (i : option (Integration Descriptor)) : HomeAssistant Descriptor :=
  {| device_registry_async_get := device_registry_async_get hass;
     async_get_entry := async_get_entry hass;
     async_entries_for_device := async_entries_for_device hass;
     async_get_integration := λ d',
       if decide (d' = d) then i else async_get_integration hass d' |}.

(** The domain contributes an empty sequence for [fname]. *)
Definition with_empty_listing hass (d fname : string) : HomeAssistant Descriptor :=
  set_integration hass d
    (Some {| get_platform := Some {[ fname := λ _, inr (Some []) ]} |}).

(** The domain is unknown to the loader. *)
Definition without_integration hass (d : string) : HomeAssistant Descriptor :=
  set_integration hass d None.

(** The aggregation as the specification words it: the domains are
    fetched one after the other in the order of enumeration, and the
    results that are not absent are concatenated. *)
Fixpoint fetch_sequentially hass (fname device_id : string)
    (domains : list string) : exn + list Descriptor :=
  match domains with
  | [] => inr []
  | d :: domains' =>
      match fetch hass d fname device_id with
      | inl x => inl x
      | inr r =>
          match fetch_sequentially hass fname device_id domains' with
          | inl x => inl x
          | inr rest => inr (default [] r ++ rest)
          end
      end
  end.

Definition sequential_aggregation hass ord (fname device_id : string)
    : exn + list Descriptor :=
  match device_registry_async_get hass device_id with
  | None => inl (DeviceNotFound device_id)
  | Some device =>
      fetch_sequentially hass fname device_id
        (iter ord (device_domains hass ord device device_id))
  end.

(** Two results of a request agree: both fail, or both return and the
    sequences are equal as multisets. *)
Definition same_multiset (r r' : exn + list Descriptor) : Prop :=
  match r, r' with
  | inr l, inr l' => l ≡ₚ l'
  | inl _, inl _ => True
  | _, _ => False
  end.

(** The three listing operations: the command, the name of the listing
    function looked up on the platform, and the handler. *)
Definition listing_operations hass ord (sched : list nat)
    : list (string * string * (Msg → list event * @response Descriptor)) :=
  [ ("device_automation/action/list", "async_get_actions",
     websocket_device_automation_list_actions hass ord sched);
    ("device_automation/condition/list", "async_get_conditions",
     websocket_device_automation_list_conditions hass ord sched);
    ("device_automation/trigger/list", "async_get_triggers",
     websocket_device_automation_list_triggers hass ord sched) ].

(** The response to a request whose aggregation had the given outcome. *)
Definition respond (id : Z) (r : outcome (list Descriptor))
    : list event * @response Descriptor :=
  (r.1,
   match r.2 with
   | inl _ => ErrorMessage (Some id) "unknown_error"
   | inr l => ResultMessage id l
   end).

(** The message a client sends for a command. *)
Definition request (id : Z) (command device_id : string) : gmap string pyval :=
  {[ "id" := PInt id; "type" := PStr command; "device_id" := PStr device_id ]}.

End Notions.
#[global] Arguments fetch : simpl never.
#[global] Arguments contribution : simpl never.

(** [d] is the portion of [s] before its first separator. *)
Definition prefix_before_separator (s d : string) : Prop :=
  ¬ In "."%char (list_ascii_of_string d)
  ∧ (s = d ∨ ∃ rest, s = d +:+ String "."%char rest).

(** How often an event occurs among the calls of a request. *)
Definition occurrences (e : event) (calls : list event) : nat :=
  length (filter (e =.) calls).

(** ** An installation to run the model on *)

Module Demo.

Definition light : Integration string :=
  {| get_platform :=
       Some {[ "async_get_triggers" := λ _, inr (Some ["T1"]);
               "async_get_actions" := λ _, inr None ]} |}.

Definition sensor : Integration string :=
  {| get_platform :=
       Some {[ "async_get_actions" := λ _, inr (Some ["A1"; "A2"]) ]} |}.

Definition alarm : Integration string := {| get_platform := None |}.

Definition climate : Integration string :=
  {| get_platform :=
       Some {[ "async_get_conditions" := λ _, inl (PluginError "boom") ]} |}.

(** Device [D] has config entries of [alarm] and [light] and the entity
    [sensor.outside_temp]; device [D3] has one config entry, of [climate];
    device [D0] has neither entries nor entities; [zwave] is the domain of
    an entity of [D4] and is unknown to the loader. *)
Definition hass : HomeAssistant string :=
  {| device_registry_async_get := λ device_id,
       if decide (device_id = "D")
       then Some {| config_entries := {[ "e1"; "e2"; "e3" ]} |}
       else if decide (device_id = "D3")
       then Some {| config_entries := {[ "e4" ]} |}
       else if decide (device_id = "D0") then Some {| config_entries := ∅ |}
       else if decide (device_id = "D4")
       then Some {| config_entries := {[ "e2" ]} |}
       else None;
     async_get_entry := λ entry_id,
       {| domain := if decide (entry_id = "e1") then "alarm"
                    else if decide (entry_id = "e4") then "climate"
                    else "light" |};
     async_entries_for_device := λ device_id,
       if decide (device_id = "D")
       then [ {| entity_id := "sensor.outside_temp" |};
              {| entity_id := "light.porch" |} ]
       else if decide (device_id = "D4")
       then [ {| entity_id := "zwave.node_2" |};
              {| entity_id := "sensor.battery.level" |} ]
       else [];
     async_get_integration := λ domain,
       if decide (domain = "alarm") then Some alarm
       else if decide (domain = "light") then Some light
       else if decide (domain = "sensor") then Some sensor
       else if decide (domain = "climate") then Some climate
       else None |}.

Definition D : DeviceEntry := {| config_entries := {[ "e1"; "e2"; "e3" ]} |}.
Definition D0 : DeviceEntry := {| config_entries := ∅ |}.
Definition D3 : DeviceEntry := {| config_entries := {[ "e4" ]} |}.
Definition D4 : DeviceEntry := {| config_entries := {[ "e2" ]} |}.

End Demo.

(** ** Notions used to state further properties *)

(** The domain whose fetch issues an event. *)
Definition event_domain (e : event) : string :=
  match e with
  | EvGetIntegration d | EvLogWarning d | EvGetPlatform d | EvListing d _ _ => d
  end.

(** The calls of a request that the fetch of one domain issued. *)
Definition domain_calls (d : string) (calls : list event) : list event :=
  filter (λ e, event_domain e = d) calls.

Section MoreNotions.
Context {Descriptor : Type}.
Implicit Types (hass : HomeAssistant Descriptor) (ord : SetOrder).

(** The calls that the fetch of one domain issues when run alone. *)
Definition fetch_calls hass (domain fname device_id : string) : list event :=
  coro_events
    (_async_get_device_automations_from_domain hass domain fname device_id).

(** What the plugin of a domain lists for a device: the sequence that the
    listing function [fname] of its device automation module returns for
    the device id, when the loader knows the domain, the integration has
    the module, the module defines the function, and the call returns a
    sequence. *)
Definition listed hass (fname device_id domain : string)
    : option (list Descriptor) :=
  match listing_of hass domain fname with
  | Some f =>
      match f device_id with
      | inr r => r
      | inl _ => None
      end
  | None => None
  end.

(** The three listing functions that the handlers ask for. *)
Definition listing_functions : list string :=
  ["async_get_actions"; "async_get_conditions"; "async_get_triggers"].

(** The same installation where the device automation module of one
    domain, when the domain has one, defines the listing function [name]
    as [o] says: that function, or no function of that name. *)
Definition set_listing_function hass (d name : string)
    (o : option (listing Descriptor)) : HomeAssistant Descriptor :=
  set_integration hass d
    match async_get_integration hass d with
    | Some integration =>
        Some {| get_platform :=
                  partial_alter (λ _, o) name <$> get_platform integration |}
    | None => None
    end.

End MoreNotions.
#[global] Arguments fetch_calls : simpl never.

(** ** Registration of the commands (lines 21-32) *)

Section Setup.
Context {Descriptor : Type}.
Implicit Types (hass : HomeAssistant Descriptor).

(** A handler as it is registered.  The order of enumeration of the sets
    and the interleaving of the fetches come with every request. *)
Definition command_handler : Type :=
  SetOrder → list nat → Msg → list event * @response Descriptor.

(** Modelled from the spec: [async_register_command] of [websocket_api],
    which is not part of this component.  The command-dispatch layer keeps
    a table from the type literal of the schema of a handler to the
    handler; registering a handler sets the entry of its command. *)
Definition async_register_command
    (command : string) (handler : command_handler)
    (table : gmap string command_handler) : gmap string command_handler :=
  <[command := handler]> table.

Definition async_setup hass (table : gmap string command_handler)
    : bool * gmap string command_handler :=
  let table :=
    async_register_command "device_automation/action/list"
      (websocket_device_automation_list_actions hass) table in
  let table :=
    async_register_command "device_automation/condition/list"
      (websocket_device_automation_list_conditions hass) table in
  let table :=
    async_register_command "device_automation/trigger/list"
      (websocket_device_automation_list_triggers hass) table in
  (true, table).

(** Modelled from the spec: the command-dispatch layer of [websocket_api].
    A message is handed to the handler registered for its type, behind the
    schema of that command; a message of a type with no handler is answered
    with an error. *)
Definition dispatch (table : gmap string command_handler)
    (ord : SetOrder) (sched : list nat) (raw : gmap string pyval)
    : list event * @response Descriptor :=
  let id := match raw !! "id" with Some (PInt id) => Some id | _ => None end in
  match raw !! "type" with
  | Some (PStr command) =>
      match table !! command with
      | Some handler => handle command (handler ord sched) raw
      | None => ([], ErrorMessage id "unknown_command")
      end
  | _ => ([], ErrorMessage id "invalid_format")
  end.

End Setup.
Arguments command_handler : clear implicits.

(** ** The condition of a device automation (lines 35-46) *)

(** Exceptions that may leave [async_device_condition_from_config]:
    [Invalid] is raised by the schema, [KeyError] by [config[CONF_DOMAIN]],
    [IntegrationNotFound] by the loader, [ImportError] by [get_platform],
    [AttributeError] by the lookup of [async_condition_from_config] on the
    module, [ConditionError] is whatever that function raises, and
    [BadDomain] is what the loader raises for a value that is not a
    string. *)
Inductive cond_exn :=
| Invalid (msg : string)
| KeyError (key : string)
| IntegrationNotFound (domain : string)
| ImportError (domain : string)
| AttributeError (name : string)
| ConditionError (msg : string)
| BadDomain (v : pyval).

(** Calls issued by [async_device_condition_from_config]. *)
Inductive cond_event :=
| CvGetIntegration (domain : pyval)
| CvGetPlatform (domain : string)
| CvConditionFromConfig
    (domain : string) (config : gmap string pyval) (config_validation : bool).

Definition CONF_DOMAIN : string := "domain".

Section Condition.
Context {Descriptor Checker : Type}.
Implicit Types (hass : HomeAssistant Descriptor).

(** What this function uses and this component does not define: the schema
    [cv.DEVICE_CONDITION_SCHEMA], which raises or returns the validated
    configuration, and the attribute [async_condition_from_config] of the
    device automation module of a domain, when the module has it. *)
Record ConditionEnv := {
  DEVICE_CONDITION_SCHEMA : gmap string pyval → cond_exn + gmap string pyval;
  async_condition_from_config :
    string → option (gmap string pyval → bool → cond_exn + Checker)
}.

Definition async_device_condition_from_config
    (env : ConditionEnv) hass
    (config : gmap string pyval) (config_validation : bool)
    : list cond_event * (cond_exn + Checker) :=
  match (if config_validation then DEVICE_CONDITION_SCHEMA env config
         else inr config) with
  | inl x => ([], inl x)
  | inr config =>
      match config !! CONF_DOMAIN with
      | None => ([], inl (KeyError CONF_DOMAIN))
      | Some (PStr domain) =>
          match async_get_integration hass domain with
          | None =>
              ([CvGetIntegration (PStr domain)],
               inl (IntegrationNotFound domain))
          | Some integration =>
              match get_platform integration with
              | None =>
                  ([CvGetIntegration (PStr domain); CvGetPlatform domain],
                   inl (ImportError domain))
              | Some platform =>
                  match async_condition_from_config env domain with
                  | None =>
                      ([CvGetIntegration (PStr domain); CvGetPlatform domain],
                       inl (AttributeError "async_condition_from_config"))
                  | Some from_config =>
                      ([CvGetIntegration (PStr domain); CvGetPlatform domain;
                        CvConditionFromConfig domain config config_validation],
                       from_config config config_validation)
                  end
              end
          end
      | Some v => ([CvGetIntegration v], inl (BadDomain v))
      end
  end.

(** The same environment with another schema. *)
Definition with_schema (env : ConditionEnv)
    (schema : gmap string pyval → cond_exn + gmap string pyval)
    : ConditionEnv :=
  {| DEVICE_CONDITION_SCHEMA := schema;
     async_condition_from_config := async_condition_from_config env |}.

End Condition.
Arguments ConditionEnv : clear implicits.

(** ** An installation where two plugins raise *)

Module TwoErrors.

Definition light : Integration string :=
  {| get_platform :=
       Some {[ "async_get_actions" := λ _, inl (PluginError "l") ]} |}.

Definition sensor : Integration string :=
  {| get_platform :=
       Some {[ "async_get_actions" := λ _, inl (PluginError "s") ]} |}.

(** Device [D5] has a config entry of [light] and one of [sensor]. *)
Definition D5 : DeviceEntry := {| config_entries := {[ "e1"; "e2" ]} |}.

Definition hass : HomeAssistant string :=
  {| device_registry_async_get := λ device_id,
       if decide (device_id = "D5") then Some D5 else None;
     async_get_entry := λ entry_id,
       {| domain := if decide (entry_id = "e1") then "light" else "sensor" |};
     async_entries_for_device := λ _, [];
     async_get_integration := λ domain,
       if decide (domain = "light") then Some light
       else if decide (domain = "sensor") then Some sensor
       else None |}.

End TwoErrors.

(** ** A condition environment to run the model on *)

Module DemoCondition.

(** The schema accepts a configuration whose domain is a string and marks
    it as validated; the module of [light] builds the checker named after
    the device of the configuration. *)
Definition schema (config : gmap string pyval)
    : cond_exn + gmap string pyval :=
  match config !! CONF_DOMAIN with
  | Some (PStr _) => inr (<["validated" := PBool true]> config)
  | _ => inl (Invalid "domain")
  end.

Definition env : ConditionEnv string :=
  {| DEVICE_CONDITION_SCHEMA := schema;
     async_condition_from_config := λ domain,
       if decide (domain = "light")
       then Some (λ config _,
                    match config !! "device_id" with
                    | Some (PStr device_id) => inr device_id
                    | _ => inl (ConditionError "device_id")
                    end)
       else None |}.

Definition config (domain : string) : gmap string pyval :=
  {[ "condition" := PStr "device"; "device_id" := PStr "D";
     "domain" := PStr domain ]}.

End DemoCondition.

(** * Properties *)

(** ** The interleaving semantics of [gather] *)

Module GatherFacts.
Import Gather.
Section GatherFacts.
Context {R : Type}.
Implicit Types (ts : list (coro R)) (st : state R) (os : list (exn + R)).
Implicit Types (c k : coro R).

Lemma results_inr os rs : results os = inr rs ↔ os = inr <$> rs.
Proof.
  revert rs. induction os as [|[x|r] os IH]; intros rs; simpl.
  - split; [intros [= <-]; done | by destruct rs].
  - split; [done | by destruct rs].
  - destruct (results os) as [x|rs'] eqn:E.
    + split; [done |]. destruct rs as [|r' rs]; [done |].
      intros [= -> Hos]. apply IH in Hos. done.
    + split.
      * intros [= <-]. simpl. f_equal. by apply IH.
      * destruct rs as [|r' rs]; [done |]. intros [= -> Hos].
        apply IH in Hos. by injection Hos as ->.
Qed.

Lemma results_inl os x : results os = inl x → inl x ∈ os.
Proof.
  induction os as [|[y|r] os IH]; simpl; [done | |].
  - intros [= ->]. left.
  - destruct (results os); [|done]. intros [= ->]. right. by apply IH.
Qed.

Lemma note_exc_some ts y : foldl (flip note_exc) (Some y) ts = Some y.
Proof. induction ts as [|c ts IH]; [done |]. by destruct c. Qed.

Lemma note_exc_none ts x :
  foldl (flip note_exc) None ts = Some x → Raise x ∈ ts.
Proof.
  induction ts as [|c ts IH]; [done |]. simpl.
  destruct c as [r|y|e k]; simpl.
  - intros H. right. by apply IH.
  - rewrite note_exc_some. intros [= ->]. left.
  - intros H. right. by apply IH.
Qed.

Lemma inv_init ts : inv ts (init ts).
Proof.
  split; simpl; [done | done |].
  intros x Hx%note_exc_none.
  apply (list_elem_of_fmap_2 coro_outcome) in Hx. done.
Qed.

Lemma events_insert (l : list (coro R)) i e k :
  l !! i = Some (Step e k) →
  concat (coro_events <$> l) ≡ₚ e :: concat (coro_events <$> <[i := k]> l).
Proof.
  revert i. induction l as [|c l IH]; intros [|i] H; simplify_eq/=; [done |].
  rewrite (IH _ H). by rewrite Permutation_middle.
Qed.

Lemma inv_resume ts st i : inv ts st → inv ts (resume st i).
Proof.
  intros [Ho Ht He]. unfold resume.
  destruct (tasks st !! i) as [[r|x|e k]|] eqn:E; try done.
  split; simpl.
  - rewrite list_fmap_insert, <- Ho. apply list_insert_id.
    by rewrite list_lookup_fmap, E.
  - rewrite <- Ht, <- (assoc_L (++)). f_equiv. simpl.
    by rewrite (events_insert _ _ _ _ E).
  - intros x. destruct (first_exc st) as [y|] eqn:Ef; simpl.
    + intros [= ->]. by apply He.
    + destruct k; try done. intros [= ->]. rewrite <- Ho.
      apply list_elem_of_lookup. exists i. by rewrite list_lookup_fmap, E.
Qed.

Lemma inv_schedule ts sched : inv ts (foldl resume (init ts) sched).
Proof.
  induction sched as [|i sched IH] using rev_ind; [apply inv_init |].
  rewrite foldl_app. by apply inv_resume.
Qed.

Lemma first_raised_elem os x : first_raised os = Some x → inl x ∈ os.
Proof.
  induction os as [|[y|r] os IH]; simpl; [done | |].
  - intros [= ->]. left.
  - intros H. right. by apply IH.
Qed.

Lemma results_first_raised os x : results os = inl x ↔ first_raised os = Some x.
Proof.
  induction os as [|[y|r] os IH]; simpl; [done | |].
  - split; by intros [= ->].
  - destruct (results os); rewrite <- IH; split; by intros [= ->].
Qed.

Lemma finish_all st (l : list (coro R)) :
  tasks (foldl finish st l) = tasks st
  ∧ trace (foldl finish st l) = trace st ++ concat (coro_events <$> l)
  ∧ first_exc (foldl finish st l)
    = match first_exc st with
      | Some x => Some x
      | None => first_raised (coro_outcome <$> l)
      end.
Proof.
  revert st. induction l as [|c l IH]; intros st; simpl.
  - rewrite (right_id_L [] (++)). by destruct (first_exc st).
  - destruct (IH (finish st c)) as (Hts & Htr & Hfe). split_and!.
    + by rewrite Hts.
    + rewrite Htr. simpl. by rewrite (assoc_L (++)).
    + rewrite Hfe. simpl. destruct (first_exc st); [done |].
      by destruct (coro_outcome c).
Qed.

Lemma inv_drain ts st :
  inv ts st →
  tasks (drain st) = tasks st
  ∧ trace (drain st) ≡ₚ concat (coro_events <$> ts)
  ∧ ∀ x, first_exc (drain st) = Some x → inl x ∈ coro_outcome <$> ts.
Proof.
  intros [Ho Ht He]. unfold drain.
  destruct (finish_all st (tasks st)) as (Hts & Htr & Hfe). split_and!.
  - done.
  - by rewrite Htr.
  - intros x. rewrite Hfe. destruct (first_exc st) as [y|].
    + intros [= ->]. by apply He.
    + rewrite Ho. apply first_raised_elem.
Qed.

(** Every call of every task is issued, each once, whatever the
    interleaving. *)
Lemma gather_trace sched ts :
  (gather sched ts).1 ≡ₚ concat (coro_events <$> ts).
Proof.
  unfold gather. simpl.
  by destruct (inv_drain ts _ (inv_schedule ts sched)) as (_ & Htr & _).
Qed.

(** When no task raises, the results come back in the order of the
    awaitables, whatever the interleaving. *)
Lemma gather_returns sched ts rs :
  coro_outcome <$> ts = inr <$> rs → (gather sched ts).2 = inr rs.
Proof.
  intros Hrs. unfold gather. simpl.
  pose proof (inv_schedule ts sched) as Hinv.
  destruct (inv_drain ts _ Hinv) as (Hts & _ & Hfe).
  destruct (first_exc _) as [x|].
  - specialize (Hfe x eq_refl). rewrite Hrs in Hfe.
    apply list_elem_of_fmap in Hfe as (? & ? & ?). done.
  - rewrite Hts, (inv_outcomes _ _ Hinv). by apply results_inr.
Qed.

(** An exception that leaves [gather] was raised by one of the tasks. *)
Lemma gather_raises sched ts x :
  (gather sched ts).2 = inl x → inl x ∈ coro_outcome <$> ts.
Proof.
  unfold gather. simpl.
  pose proof (inv_schedule ts sched) as Hinv.
  destruct (inv_drain ts _ Hinv) as (Hts & _ & Hfe).
  destruct (first_exc _) as [y|].
  - intros [= ->]. by apply Hfe.
  - rewrite Hts, (inv_outcomes _ _ Hinv). apply results_inl.
Qed.

(** [gather] returns only when every task returned. *)
Lemma gather_returned sched ts rs :
  (gather sched ts).2 = inr rs → coro_outcome <$> ts = inr <$> rs.
Proof.
  unfold gather. simpl.
  pose proof (inv_schedule ts sched) as Hinv.
  destruct (inv_drain ts _ Hinv) as (Hts & _ & Hfe).
  destruct (first_exc _) as [y|]; [done |].
  rewrite Hts, (inv_outcomes _ _ Hinv). apply results_inr.
Qed.

Lemma returns_note_exc c fe : returns c → note_exc c fe = fe.
Proof. intros [r Hr]. destruct fe, c; done. Qed.

Lemma alike_note_exc ts ts' fe :
  Forall2 alike ts ts' →
  foldl (flip note_exc) fe ts = foldl (flip note_exc) fe ts'.
Proof.
  intros H. revert fe. induction H as [|c c' ts ts' [->|[Hc Hc']] _ IH];
    intros fe; simpl; [done | apply IH |].
  rewrite IH. f_equal. unfold flip. by rewrite !returns_note_exc.
Qed.

Lemma alike_first_raised ts ts' :
  Forall2 alike ts ts' →
  first_raised (coro_outcome <$> ts) = first_raised (coro_outcome <$> ts').
Proof.
  induction 1 as [|c c' ts ts' [->|[[r Hc] [r' Hc']]] _ IH]; simpl; [done | |].
  - by destruct (coro_outcome c').
  - by rewrite Hc, Hc'.
Qed.

Lemma resume_returns st i c :
  returns c → tasks st !! i = Some c →
  ∃ k, returns k
       ∧ tasks (resume st i) = <[i := k]> (tasks st)
       ∧ first_exc (resume st i) = first_exc st.
Proof.
  intros Hc E. unfold resume. rewrite E. destruct c as [r|x|e k].
  - exists (Ret r). by rewrite list_insert_id.
  - by destruct Hc.
  - exists k. simpl. by rewrite returns_note_exc.
Qed.

Lemma alike_resume st st' i :
  alike_states st st' → alike_states (resume st i) (resume st' i).
Proof.
  intros [Hts Hfe].
  destruct (tasks st !! i) as [c|] eqn:E.
  - destruct (Forall2_lookup_l _ _ _ _ _ Hts E) as (c' & E' & [<-|[Hc Hc']]).
    + unfold resume. rewrite E, E'.
      destruct c as [r|x|e k]; [done | done |]. split; simpl.
      * apply Forall2_insert; [done | by left].
      * by rewrite Hfe.
    + destruct (resume_returns st i c Hc E) as (k & Hk & Et & Ef).
      destruct (resume_returns st' i c' Hc' E') as (k' & Hk' & Et' & Ef').
      split; [|congruence]. rewrite Et, Et'.
      apply Forall2_insert; [done | by right].
  - assert (tasks st' !! i = None) as E'.
    { apply lookup_ge_None. rewrite <- (Forall2_length _ _ _ Hts).
      by apply lookup_ge_None. }
    unfold resume. by rewrite E, E'.
Qed.

Lemma gather_alike sched ts ts' x :
  Forall2 alike ts ts' →
  (gather sched ts).2 = inl x ↔ (gather sched ts').2 = inl x.
Proof.
  intros Hts. unfold gather. simpl.
  assert (alike_states (foldl resume (init ts) sched)
                       (foldl resume (init ts') sched)) as [Ht Hfe].
  { induction sched as [|i sched IH] using rev_ind.
    - split; simpl; [done | by apply alike_note_exc].
    - rewrite !foldl_app. by apply alike_resume. }
  unfold drain.
  destruct (finish_all (foldl resume (init ts) sched)
              (tasks (foldl resume (init ts) sched))) as (E1 & _ & E2).
  destruct (finish_all (foldl resume (init ts') sched)
              (tasks (foldl resume (init ts') sched))) as (E1' & _ & E2').
  rewrite E1, E1', E2, E2', <- Hfe, <- (alike_first_raised _ _ Ht).
  destruct (first_exc _) as [y|]; [done |].
  destruct (first_raised _) as [y|] eqn:Ef; [done |].
  rewrite !results_first_raised, <- (alike_first_raised _ _ Ht), Ef. done.
Qed.

End GatherFacts.
End GatherFacts.

(** ** The per-domain fetch and the merge *)

Section AggregationFacts.
Context {Descriptor : Type}.
Implicit Types (hass : HomeAssistant Descriptor) (ord : SetOrder).
Implicit Types (d domain fname device_id : string).

(** Case analysis on what [gather] gave back. *)
Ltac case_gather y rs Eg :=
  match goal with
  | |- context [(Gather.gather ?s ?ts).2] =>
      destruct (Gather.gather s ts).2 as [y|rs] eqn:Eg
  end.

Lemma fetch_listing hass d fname device_id :
  fetch hass d fname device_id
  = match listing_of hass d fname with
    | Some f => match f device_id with inl x => inl x | inr r => inr r end
    | None => inr None
    end.
Proof.
  unfold fetch, listing_of, _async_get_device_automations_from_domain. simpl.
  destruct (async_get_integration hass d) as [[[platform|]]|]; simpl; try done.
  destruct (platform !! fname) as [f|]; simpl; [|done].
  by destruct (f device_id).
Qed.

Lemma listing_of_none hass d fname :
  listing_of hass d fname = None
  ↔ integration_not_found hass d ∨ no_capability_module hass d
    ∨ operation_not_exposed hass d fname.
Proof.
  unfold listing_of, integration_not_found, no_capability_module,
    operation_not_exposed.
  destruct (async_get_integration hass d) as [[[platform|]]|]; simpl.
  - split; [intros H; right; right; eauto |].
    intros [?|[(i & [= <-] & ?)|(i & p & [= <-] & [= <-] & ?)]]; done.
  - split; [intros _; right; left; eauto | done].
  - split; [by left | done].
Qed.

Lemma extend_all_concat (rs : list (option (list Descriptor))) :
  extend_all rs = concat (omap id rs).
Proof.
  unfold extend_all. change (concat (omap id rs)) with ([] ++ concat (omap id rs)).
  generalize (@nil Descriptor). induction rs as [|[l|] rs IH]; intros acc; simpl.
  - by rewrite (right_id_L [] (++)).
  - by rewrite IH, (assoc_L (++)).
  - apply IH.
Qed.

Lemma omap_contribution hass fname device_id (ds : list string) :
  omap id (contribution hass fname device_id <$> ds)
  = omap (contribution hass fname device_id) ds.
Proof.
  induction ds as [|d ds IH]; [done |]. rewrite fmap_cons. cbn.
  destruct (contribution hass fname device_id d); cbn; by rewrite <- IH.
Qed.

Lemma fold_add_elem {A} (f : A → string) (l : list A) (s : gset string) d :
  d ∈ foldl (λ domains x, domains ∪ {[ f x ]}) s l
  ↔ d ∈ s ∨ ∃ x, x ∈ l ∧ f x = d.
Proof.
  revert s. induction l as [|a l IH]; intros s; simpl.
  - split; [by left | intros [?|(x & Hx & _)]; [done | by inversion Hx]].
  - rewrite IH, elem_of_union, elem_of_singleton. split.
    + intros [[?| ->]|(x & Hx & Hf)]; [by left | |].
      * right. exists a. split; [left | done].
      * right. exists x. split; [by right | done].
    + intros [?|(x & Hx & Hf)]; [by left; left |].
      apply elem_of_cons in Hx as [-> |Hx]; [by left; right |].
      right. eauto.
Qed.

Lemma iter_elem ord (s : gset string) d : d ∈ iter ord s ↔ d ∈ s.
Proof. by rewrite (iter_perm ord s), elem_of_elements. Qed.

Lemma iter_NoDup ord (s : gset string) : NoDup (iter ord s).
Proof. rewrite (iter_perm ord s). apply NoDup_elements. Qed.

Lemma iter_empty ord : iter ord ∅ = [].
Proof. apply Permutation_nil_r. by rewrite (iter_perm ord ∅), elements_empty. Qed.

Lemma device_domains_elem hass ord device device_id d :
  d ∈ device_domains hass ord device device_id
  ↔ (∃ entry_id, entry_id ∈ config_entries device
                 ∧ domain (async_get_entry hass entry_id) = d)
    ∨ (∃ entity, entity ∈ async_entries_for_device hass device_id
                 ∧ item0 (split_entity_id (entity_id entity)) = d).
Proof.
  unfold device_domains. rewrite !fold_add_elem. split.
  - intros [[Hd|(e & He & Hf)]|?]; [set_solver | | by right].
    left. exists e. by rewrite <- (iter_elem ord).
  - intros [(e & He & Hf)|?]; [|by right].
    left. right. exists e. by rewrite iter_elem.
Qed.

(** The tasks handed to [gather], and what each yields alone. *)
Lemma tasks_outcomes hass fname device_id (ds : list string) :
  coro_outcome
    <$> ((λ d, _async_get_device_automations_from_domain hass d fname device_id)
           <$> ds)
  = (λ d, fetch hass d fname device_id) <$> ds.
Proof. by rewrite <- list_fmap_compose. Qed.

Lemma fetches_return hass fname device_id (ds : list string) :
  (∀ d, d ∈ ds → ∃ r, fetch hass d fname device_id = inr r) →
  (λ d, fetch hass d fname device_id) <$> ds
  = inr <$> (contribution hass fname device_id <$> ds).
Proof.
  intros H. rewrite <- list_fmap_compose. apply list_fmap_ext.
  intros i d Hd. simpl. unfold contribution.
  destruct (H d) as [r ->]; [|done]. by eapply list_elem_of_lookup_2.
Qed.

Lemma fetches_returned hass fname device_id (ds : list string) rs :
  (λ d, fetch hass d fname device_id) <$> ds = inr <$> rs →
  (∀ d, d ∈ ds → ∃ r, fetch hass d fname device_id = inr r)
  ∧ rs = contribution hass fname device_id <$> ds.
Proof.
  revert rs. induction ds as [|d ds IH]; intros [|r rs] [=].
  { split; [by intros d ?%elem_of_nil | done]. }
  destruct (IH rs) as [Hds ->]; [done |]. split.
  - intros d' [-> |?]%elem_of_cons; eauto.
  - rewrite fmap_cons. f_equal. unfold contribution. by rewrite H0.
Qed.

(** The aggregation for a device that the registry knows. *)
Lemma aggregation_known hass ord sched fname device_id device :
  device_registry_async_get hass device_id = Some device →
  _async_get_device_automations hass ord sched fname device_id
  = let r :=
      Gather.gather sched
        ((λ d, _async_get_device_automations_from_domain hass d fname device_id)
           <$> iter ord (device_domains hass ord device device_id)) in
    (r.1, match r.2 with inl x => inl x | inr rs => inr (extend_all rs) end).
Proof.
  intros E. unfold _async_get_device_automations. rewrite E.
  match goal with
  | |- context [Gather.gather ?s ?ts] => by destruct (Gather.gather s ts) as [calls [x|rs]]
  end.
Qed.

Lemma aggregation_returns hass ord sched fname device_id device :
  device_registry_async_get hass device_id = Some device →
  (∀ d, d ∈ device_domains hass ord device device_id →
        ∃ r, fetch hass d fname device_id = inr r) →
  (_async_get_device_automations hass ord sched fname device_id).2
  = inr (concat (omap (contribution hass fname device_id)
                   (iter ord (device_domains hass ord device device_id)))).
Proof.
  intros E H. rewrite (aggregation_known _ _ _ _ _ _ E). cbv zeta. cbn [fst snd].
  rewrite (GatherFacts.gather_returns _ _
             (contribution hass fname device_id
                <$> iter ord (device_domains hass ord device device_id))).
  - by rewrite extend_all_concat, omap_contribution.
  - rewrite tasks_outcomes. apply fetches_return.
    intros d Hd. apply H. by rewrite <- (iter_elem ord).
Qed.

Lemma aggregation_raises hass ord sched fname device_id x :
  (_async_get_device_automations hass ord sched fname device_id).2 = inl x →
  match device_registry_async_get hass device_id with
  | None => x = DeviceNotFound device_id
  | Some device =>
      ∃ d, d ∈ device_domains hass ord device device_id
           ∧ fetch hass d fname device_id = inl x
  end.
Proof.
  destruct (device_registry_async_get hass device_id) as [device|] eqn:E.
  - rewrite (aggregation_known _ _ _ _ _ _ E). cbv zeta. cbn [fst snd].
    case_gather y rs Eg; [|done].
    intros [= ->]. apply GatherFacts.gather_raises in Eg.
    rewrite tasks_outcomes in Eg.
    apply list_elem_of_fmap in Eg as (d & Hd & Hin).
    exists d. by rewrite <- (iter_elem ord).
  - unfold _async_get_device_automations. rewrite E. simpl. congruence.
Qed.

Lemma aggregation_returned hass ord sched fname device_id l :
  (_async_get_device_automations hass ord sched fname device_id).2 = inr l →
  ∃ device,
    device_registry_async_get hass device_id = Some device
    ∧ (∀ d, d ∈ device_domains hass ord device device_id →
            ∃ r, fetch hass d fname device_id = inr r)
    ∧ l = concat (omap (contribution hass fname device_id)
                    (iter ord (device_domains hass ord device device_id))).
Proof.
  destruct (device_registry_async_get hass device_id) as [device|] eqn:E.
  - rewrite (aggregation_known _ _ _ _ _ _ E). cbv zeta. cbn [fst snd].
    case_gather y rs Eg; [done |].
    intros [= <-]. apply GatherFacts.gather_returned in Eg.
    rewrite tasks_outcomes in Eg.
    apply fetches_returned in Eg as [Hds ->].
    exists device. split_and!; [done | |].
    + intros d Hd. apply Hds. by rewrite iter_elem.
    + by rewrite extend_all_concat, omap_contribution.
  - unfold _async_get_device_automations. by rewrite E.
Qed.

Lemma aggregation_calls hass ord sched fname device_id device :
  device_registry_async_get hass device_id = Some device →
  (_async_get_device_automations hass ord sched fname device_id).1
  ≡ₚ concat
       ((λ d, coro_events
                (_async_get_device_automations_from_domain
                   hass d fname device_id))
          <$> iter ord (device_domains hass ord device device_id)).
Proof.
  intros E. rewrite (aggregation_known _ _ _ _ _ _ E). cbv zeta. cbn [fst snd].
  by rewrite GatherFacts.gather_trace, <- list_fmap_compose.
Qed.

Lemma fetch_raises hass d fname device_id x :
  fetch hass d fname device_id = inl x
  ↔ ∃ f, listing_of hass d fname = Some f ∧ f device_id = inl x.
Proof.
  rewrite fetch_listing. destruct (listing_of hass d fname) as [f|].
  - split.
    + destruct (f device_id) eqn:Ef; [|done]. intros [= ->]. eauto.
    + intros (f' & [= <-] & ->). done.
  - split; [done | by intros (f & ? & _)].
Qed.

Lemma filter_concat_length {A} (P : A → Prop) `{!∀ x, Decision (P x)}
    (ls : list (list A)) :
  length (filter P (concat ls))
  = sum_list ((λ l, length (filter P l)) <$> ls).
Proof.
  induction ls as [|l ls IH]; [done |].
  simpl. by rewrite filter_app, length_app, IH.
Qed.

(** The domain of an entity id. *)
Lemma item0_split_cons c s :
  item0 (split_entity_id (String c s))
  = if Ascii.eqb c "."%char then EmptyString
    else String c (item0 (split_entity_id s)).
Proof.
  simpl. destruct (Ascii.eqb c "."%char); [done |].
  by destruct (split_entity_id s).
Qed.

Lemma item0_split_prefix s d :
  item0 (split_entity_id s) = d ↔ prefix_before_separator s d.
Proof.
  unfold prefix_before_separator. revert d.
  induction s as [|c s IH]; intros d.
  - simpl. split.
    + intros <-. split; [by intros [] | by left].
    + intros [_ [<-|[rest H]]]; [done |]. by destruct d.
  - rewrite item0_split_cons.
    destruct (Ascii.eqb c "."%char) eqn:Ec.
    + apply Ascii.eqb_eq in Ec as ->. split.
      * intros <-. split; [by intros [] |]. right. by exists s.
      * intros [Hd [<-|[rest H]]].
        -- destruct Hd. by left.
        -- destruct d as [|c' d]; [done |]. injection H as <- _.
           destruct Hd. by left.
    + apply Ascii.eqb_neq in Ec. split.
      * intros <-.
        destruct (proj1 (IH _) eq_refl) as [Hd Hs]. split.
        -- simpl. intros [?|?]; [done | by apply Hd].
        -- destruct Hs as [Hs|[rest Hs]].
           ++ left. by rewrite <- Hs.
           ++ right. exists rest.
              change (String c s
                      = String c (item0 (split_entity_id s)
                                  +:+ String "."%char rest)).
              by rewrite <- Hs.
      * intros [Hd Hs]. destruct d as [|c' d].
        -- destruct Hs as [?|[rest Hs]]; [done |]. injection Hs as -> _. done.
        -- assert (c' = c ∧ (s = d ∨ ∃ rest, s = d +:+ String "."%char rest))
             as [-> Hs'].
           { destruct Hs as [Hs|[rest Hs]]; injection Hs as -> ->; eauto. }
           f_equal. apply IH. split; [|done].
           intros Hin. apply Hd. by right.
Qed.

(** The loader is asked for a domain by the fetch of that domain, once,
    and by no other fetch. *)
Lemma occurrences_from_domain hass d d' fname device_id :
  occurrences (EvGetIntegration d)
    (coro_events (_async_get_device_automations_from_domain hass d' fname device_id))
  = if decide (d' = d) then 1 else 0.
Proof.
  unfold occurrences, _async_get_device_automations_from_domain.
  destruct (async_get_integration hass d') as [[[platform|]]|]; simpl;
    [destruct (platform !! fname) as [f|]; simpl; [destruct (f device_id) |] | |];
    repeat (rewrite filter_cons; case_decide; simplify_eq);
    rewrite ?filter_nil; simpl; case_decide; congruence.
Qed.

Lemma occurrences_fan_out hass d fname device_id (ds : list string) :
  NoDup ds →
  occurrences (EvGetIntegration d)
    (concat ((λ d', coro_events
                      (_async_get_device_automations_from_domain
                         hass d' fname device_id)) <$> ds))
  = if decide (d ∈ ds) then 1 else 0.
Proof.
  unfold occurrences. induction 1 as [|d' ds Hd' Hds IH].
  - by rewrite decide_False by apply not_elem_of_nil.
  - rewrite fmap_cons. cbn [concat]. rewrite filter_app, length_app, IH.
    pose proof (occurrences_from_domain hass d d' fname device_id) as H.
    unfold occurrences in H. rewrite H.
    destruct (decide (d' = d)) as [->|Hne].
    + rewrite (decide_False (P := d ∈ ds)) by done.
      rewrite decide_True; [done | left].
    + destruct (decide (d ∈ ds)).
      * rewrite decide_True; [done | by right].
      * rewrite decide_False; [done |]. by intros [->|?]%elem_of_cons.
Qed.

(** The domain set does not depend on the order in which the config
    entries were enumerated. *)
Lemma device_domains_order hass ord ord' device device_id :
  device_domains hass ord device device_id
  = device_domains hass ord' device device_id.
Proof. apply set_eq. intros d. by rewrite !device_domains_elem. Qed.

Lemma concat_omap_default {A} (c c' : A → option (list Descriptor)) (l : list A) :
  (∀ a, a ∈ l → default [] (c a) = default [] (c' a)) →
  concat (omap c l) = concat (omap c' l).
Proof.
  induction l as [|a l IH]; intros H; [done |].
  assert (concat (omap c l) = concat (omap c' l)) as IH'.
  { apply IH. intros a' Ha'. apply H. by right. }
  specialize (H a (list_elem_of_here _ _)). cbn.
  destruct (c a) as [x|], (c' a) as [x'|]; cbn in *; subst; by rewrite ?IH'.
Qed.

Lemma concat_omap_skip (c : string → option (list Descriptor)) d (l : list string) :
  c d = None →
  concat (omap c l) = concat (omap c (filter (.≠ d) l)).
Proof.
  intros Hd. induction l as [|a l IH]; [done |].
  rewrite filter_cons. destruct (decide (a ≠ d)) as [Hne|Heq].
  - cbn. destruct (c a); cbn; by rewrite IH.
  - apply dec_stable in Heq as ->. cbn. by rewrite Hd.
Qed.

(** The sequential aggregation of the specification. *)
Lemma sequential_returns hass fname device_id (ds : list string) :
  (∀ d, d ∈ ds → ∃ r, fetch hass d fname device_id = inr r) →
  fetch_sequentially hass fname device_id ds
  = inr (concat (omap (contribution hass fname device_id) ds)).
Proof.
  induction ds as [|d ds IH]; intros H; [done |].
  destruct (H d) as [r Hr]; [left |].
  cbn. unfold contribution at 1. rewrite Hr.
  rewrite IH by (intros d' Hd'; apply H; by right).
  by destruct r.
Qed.

Lemma sequential_returned hass fname device_id (ds : list string) l :
  fetch_sequentially hass fname device_id ds = inr l →
  ∀ d, d ∈ ds → ∃ r, fetch hass d fname device_id = inr r.
Proof.
  revert l. induction ds as [|d ds IH]; intros l H d' Hd'.
  - by apply elem_of_nil in Hd'.
  - simpl in H. destruct (fetch hass d fname device_id) as [x|r] eqn:Ed; [done |].
    destruct (fetch_sequentially hass fname device_id ds) as [x|rest] eqn:Es;
      [done |].
    apply elem_of_cons in Hd' as [-> |Hd']; [eauto |]. by eapply IH.
Qed.

(** Changing what the loader answers for one domain, between two answers
    with which the fetch of that domain returns the same descriptors,
    changes nothing in the result of the aggregation. *)
Lemma set_integration_result hass ord sched fname device_id d i r r' :
  fetch hass d fname device_id = inr r →
  fetch (set_integration hass d i) d fname device_id = inr r' →
  default [] r = default [] r' →
  (_async_get_device_automations hass ord sched fname device_id).2
  = (_async_get_device_automations (set_integration hass d i)
       ord sched fname device_id).2.
Proof.
  intros Hr Hr' Hrr'.
  destruct (device_registry_async_get hass device_id) as [device|] eqn:E;
    [|unfold _async_get_device_automations; simpl; by rewrite E].
  assert (device_registry_async_get (set_integration hass d i) device_id
          = Some device) as E' by done.
  assert (device_domains (set_integration hass d i) ord device device_id
          = device_domains hass ord device device_id) as Hds by done.
  assert (∀ d', d' ≠ d →
            _async_get_device_automations_from_domain
              (set_integration hass d i) d' fname device_id
            = _async_get_device_automations_from_domain
                hass d' fname device_id) as Hother.
  { intros d' Hne. unfold _async_get_device_automations_from_domain. simpl.
    by rewrite decide_False. }
  rewrite (aggregation_known _ _ _ _ _ _ E), (aggregation_known _ _ _ _ _ _ E').
  cbv zeta. cbn [fst snd]. rewrite Hds.
  set (ds := iter ord (device_domains hass ord device device_id)).
  set (ts := (λ d', _async_get_device_automations_from_domain
                      hass d' fname device_id) <$> ds).
  set (ts' := (λ d', _async_get_device_automations_from_domain
                       (set_integration hass d i) d' fname device_id) <$> ds).
  assert (Forall2 Gather.alike ts ts') as Halike.
  { apply Forall2_fmap, Forall_Forall2_diag, Forall_forall. intros d' _.
    destruct (decide (d' = d)) as [->|Hne].
    - right. split; [by exists r | by exists r'].
    - left. by rewrite Hother. }
  destruct (Gather.gather sched ts).2 as [x|rs] eqn:Eg.
  - apply (GatherFacts.gather_alike sched _ _ x Halike) in Eg. by rewrite Eg.
  - destruct (Gather.gather sched ts').2 as [x|rs'] eqn:Eg'.
    + apply (GatherFacts.gather_alike sched _ _ x Halike) in Eg'. congruence.
    + apply GatherFacts.gather_returned in Eg, Eg'. unfold ts, ts' in *.
      rewrite tasks_outcomes in Eg, Eg'.
      apply fetches_returned in Eg as [_ ->], Eg' as [_ ->].
      rewrite !extend_all_concat, !omap_contribution. f_equal.
      apply concat_omap_default. intros d' _. unfold contribution.
      destruct (decide (d' = d)) as [->|Hne].
      * by rewrite Hr, Hr'.
      * unfold fetch. by rewrite Hother.
Qed.

(** What a domain contributes to the merged result is what its plugin
    lists. *)
Lemma contribution_listed hass fname device_id d :
  contribution hass fname device_id d = listed hass fname device_id d.
Proof.
  unfold contribution, listed. rewrite fetch_listing.
  destruct (listing_of hass d fname) as [f|]; [|done].
  by destruct (f device_id).
Qed.

Lemma omap_contribution_listed hass fname device_id (ds : list string) :
  omap (contribution hass fname device_id) ds
  = omap (listed hass fname device_id) ds.
Proof.
  induction ds as [|d ds IH]; [done |]. cbn.
  by rewrite contribution_listed, IH.
Qed.

Lemma fetch_returns_listing hass fname device_id d :
  (∀ f, listing_of hass d fname = Some f → ∃ r, f device_id = inr r) →
  ∃ r, fetch hass d fname device_id = inr r.
Proof.
  intros H. rewrite fetch_listing.
  destruct (listing_of hass d fname) as [f|]; [|eauto].
  destruct (H f eq_refl) as [r ->]. eauto.
Qed.

End AggregationFacts.

(** ** The handlers *)

Section HandlerFacts.
Context {Descriptor : Type}.
Implicit Types (hass : HomeAssistant Descriptor) (ord : SetOrder).

(** Every handler answers with the outcome of the aggregation for its own
    listing function and the device id of the message. *)
Lemma handlers_respond hass ord sched :
  Forall (λ op, ∀ msg,
            op.2 msg
            = respond (msg_id msg)
                (_async_get_device_automations hass ord sched op.1.2
                   (msg_device_id msg)))
         (listing_operations hass ord sched).
Proof.
  unfold listing_operations. repeat constructor; intros msg; simpl;
    unfold websocket_device_automation_list_actions,
      websocket_device_automation_list_conditions,
      websocket_device_automation_list_triggers, respond, async_response;
    by destruct (_async_get_device_automations _ _ _ _ _) as [calls [x|l]].
Qed.

Lemma websocket_command_request (id : Z) (command device_id : string) :
  (0 < id)%Z →
  websocket_command command (request id command device_id)
  = Some {| msg_id := id; msg_type := command; msg_device_id := device_id |}.
Proof.
  intros Hid. unfold websocket_command, request, schema.
  assert (∀ v : pyval,
    ({[ "id" := PInt id; "type" := PStr command; "device_id" := v ]}
       : gmap string pyval) !! "device_id" = Some v) as Hd.
  { intros v. by simplify_map_eq. }
  assert (({[ "id" := PInt id; "type" := PStr command;
              "device_id" := PStr device_id ]} : gmap string pyval) !! "type"
          = Some (PStr command)) as Ht by by simplify_map_eq.
  assert (({[ "id" := PInt id; "type" := PStr command;
              "device_id" := PStr device_id ]} : gmap string pyval) !! "id"
          = Some (PInt id)) as Hi by by simplify_map_eq.
  cbn [forallb fst snd]. rewrite Hd, Ht, Hi. cbn [from_option check].
  rewrite !bool_decide_true by done. done.
Qed.

End HandlerFacts.

(** * The claims *)

Section Claims.
Context {Descriptor : Type}.
Implicit Types (hass : HomeAssistant Descriptor) (ord : SetOrder).
Implicit Types (d domain fname device_id : string).

(** C1. For a device id that the device registry does not know, each of
    the three listing operations fails with [DeviceNotFound], the handler
    answers with an error response for the request, and no call to the
    plugin loader or to a plugin is issued, whatever the order of
    enumeration and the interleaving. *)
Theorem unknown_device_fails hass ord sched device_id :
  device_registry_async_get hass device_id = None →
  Forall (λ op,
            _async_get_device_automations hass ord sched op.1.2 device_id
            = ([], inl (DeviceNotFound device_id))
            ∧ ∀ msg, msg_device_id msg = device_id →
                     op.2 msg
                     = ([], ErrorMessage (Some (msg_id msg)) "unknown_error"))
         (listing_operations hass ord sched).
Proof.
  intros E.
  eapply Forall_impl; [apply handlers_respond |].
  intros [[command fname] handler] H. cbn [fst snd] in *.
  assert (_async_get_device_automations hass ord sched fname device_id
          = ([], inl (DeviceNotFound device_id))) as Hagg.
  { unfold _async_get_device_automations. by rewrite E. }
  split; [done |]. intros msg <-. by rewrite H, Hagg.
Qed.

(** C6. For a device of the registry with no config entry and no entity,
    each of the three listing operations returns the empty sequence and
    no error, and the handler answers with that result. *)
Theorem no_domains_empty_result hass ord sched device_id device :
  device_registry_async_get hass device_id = Some device →
  config_entries device = ∅ →
  async_entries_for_device hass device_id = [] →
  Forall (λ op,
            _async_get_device_automations hass ord sched op.1.2 device_id
            = ([], inr [])
            ∧ ∀ msg, msg_device_id msg = device_id →
                     op.2 msg = ([], ResultMessage (msg_id msg) []))
         (listing_operations hass ord sched).
Proof.
  intros E Hce Hen.
  eapply Forall_impl; [apply handlers_respond |].
  intros [[command fname] handler] H. cbn [fst snd] in *.
  assert (device_domains hass ord device device_id = ∅) as Hds.
  { unfold device_domains. by rewrite Hce, Hen, iter_empty. }
  assert (_async_get_device_automations hass ord sched fname device_id
          = ([], inr [])) as Hagg.
  { apply injective_projections.
    - apply Permutation_nil_r.
      by rewrite (aggregation_calls _ _ _ _ _ _ E), Hds, iter_empty.
    - rewrite (aggregation_returns _ _ _ _ _ _ E).
      + by rewrite Hds, iter_empty.
      + rewrite Hds. set_solver. }
  split; [done |]. intros msg <-. by rewrite H, Hagg.
Qed.

(** C10. A request whose [device_id] is any string, the empty string
    included, passes the schema of each of the three commands, and the
    handler answers with the outcome of the aggregation for exactly that
    string: the handlers do not reject an empty device id. *)
Theorem any_device_id_accepted hass ord sched (id : Z) device_id :
  (0 < id)%Z →
  Forall (λ op,
            websocket_command op.1.1 (request id op.1.1 device_id)
            = Some {| msg_id := id; msg_type := op.1.1;
                      msg_device_id := device_id |}
            ∧ handle op.1.1 op.2 (request id op.1.1 device_id)
              = respond id
                  (_async_get_device_automations hass ord sched op.1.2
                     device_id))
         (listing_operations hass ord sched).
Proof.
  intros Hid.
  eapply Forall_impl; [apply handlers_respond |].
  intros [[command fname] handler] H. cbn [fst snd] in *.
  split; [by apply websocket_command_request |].
  unfold handle. rewrite websocket_command_request by done. by rewrite H.
Qed.

(** C2 (amended). When the listing operation of a relevant domain raises
    during the listing call, the aggregation does not return a list: it
    fails with an error raised by the listing call of a relevant domain,
    which is that very error when no relevant domain raises another one,
    and the handler never answers with a result. *)
Theorem plugin_error_propagates hass ord sched fname device_id device d f x :
  device_registry_async_get hass device_id = Some device →
  d ∈ device_domains hass ord device device_id →
  listing_of hass d fname = Some f →
  f device_id = inl x →
  let r := _async_get_device_automations hass ord sched fname device_id in
  (∃ d' f' x',
     d' ∈ device_domains hass ord device device_id
     ∧ listing_of hass d' fname = Some f'
     ∧ f' device_id = inl x'
     ∧ r.2 = inl x')
  ∧ ((∀ d' f' x',
        d' ∈ device_domains hass ord device device_id →
        listing_of hass d' fname = Some f' →
        f' device_id = inl x' → x' = x) →
     r.2 = inl x)
  ∧ ∀ id l, (respond id r).2 ≠ ResultMessage id l.
Proof.
  intros E Hd Hf Hx r.
  assert (∃ d' f' x',
            d' ∈ device_domains hass ord device device_id
            ∧ listing_of hass d' fname = Some f'
            ∧ f' device_id = inl x'
            ∧ r.2 = inl x') as H.
  { destruct r.2 as [x'|l] eqn:Er.
    - pose proof (aggregation_raises _ _ _ _ _ _ Er) as Hr.
      rewrite E in Hr. destruct Hr as (d' & Hd' & Hx').
      apply fetch_raises in Hx' as (f' & Hf' & Hx'). by exists d', f', x'.
    - apply aggregation_returned in Er as (device' & E' & Hall & _).
      assert (device' = device) as -> by congruence.
      destruct (Hall d Hd) as [r' Hr'].
      assert (fetch hass d fname device_id = inl x) as Hr''.
      { apply fetch_raises. eauto. }
      congruence. }
  split_and!; [done | |].
  - intros Honly. destruct H as (d' & f' & x' & Hd' & Hf' & Hx' & ->).
    f_equal. eauto.
  - intros id l. destruct H as (d' & f' & x' & _ & _ & _ & Hr).
    unfold respond. cbn [snd]. by rewrite Hr.
Qed.

(** C4. For a device of the registry the domains that the aggregation
    fans out to are the domains of the config entries of the device
    together with the prefixes before the first separator of the ids of
    its entities, each domain once: the loader is asked once for every
    such domain and never for another one. *)
Theorem fan_out_domains hass ord sched fname device_id device :
  device_registry_async_get hass device_id = Some device →
  let ds := iter ord (device_domains hass ord device device_id) in
  NoDup ds
  ∧ (∀ d, d ∈ ds
          ↔ (∃ entry_id, entry_id ∈ config_entries device
                         ∧ domain (async_get_entry hass entry_id) = d)
            ∨ (∃ entity, entity ∈ async_entries_for_device hass device_id
                         ∧ prefix_before_separator (entity_id entity) d))
  ∧ ∀ d, occurrences (EvGetIntegration d)
           (_async_get_device_automations hass ord sched fname device_id).1
         = if decide (d ∈ ds) then 1 else 0.
Proof.
  intros E ds. split_and!.
  - apply iter_NoDup.
  - intros d. unfold ds. rewrite iter_elem, device_domains_elem.
    by setoid_rewrite item0_split_prefix.
  - intros d. unfold occurrences.
    rewrite (aggregation_calls _ _ _ _ _ _ E).
    apply occurrences_fan_out, iter_NoDup.
Qed.

(** C5. When no fetch raises, the aggregated result is the concatenation
    of the results that are not absent, each in the order its plugin gave
    it, with the domains in the order of enumeration; so every descriptor
    of every plugin is in the result as often as the plugins returned
    it. *)
Theorem merged_in_enumeration_order hass ord sched fname device_id device :
  device_registry_async_get hass device_id = Some device →
  (∀ d, d ∈ device_domains hass ord device device_id →
        ∃ r, fetch hass d fname device_id = inr r) →
  let parts :=
    omap (contribution hass fname device_id)
      (iter ord (device_domains hass ord device device_id)) in
  (_async_get_device_automations hass ord sched fname device_id).2
  = inr (concat parts)
  ∧ ∀ (P : Descriptor → Prop) (dec : ∀ x, Decision (P x)),
      length (filter P (concat parts))
      = sum_list ((λ l, length (filter P l)) <$> parts).
Proof.
  intros E H parts. split.
  - by apply aggregation_returns.
  - intros P dec. apply filter_concat_length.
Qed.

(** C3. For a domain of the device for which the loader reports that the
    integration is not found, or whose integration has no device
    automation module, or whose module does not define the listing
    function asked for, the fetch yields absent, the aggregated result is
    what it is when that domain contributes an empty sequence instead, and
    an exception that reaches the caller was raised by the listing call of
    another domain. *)
Theorem absent_domain_is_harmless hass ord sched fname device_id device d :
  device_registry_async_get hass device_id = Some device →
  d ∈ device_domains hass ord device device_id →
  integration_not_found hass d ∨ no_capability_module hass d
    ∨ operation_not_exposed hass d fname →
  fetch hass d fname device_id = inr None
  ∧ (_async_get_device_automations hass ord sched fname device_id).2
    = (_async_get_device_automations (with_empty_listing hass d fname)
         ord sched fname device_id).2
  ∧ ∀ x,
      (_async_get_device_automations hass ord sched fname device_id).2 = inl x →
      ∃ d' f',
        d' ≠ d
        ∧ d' ∈ device_domains hass ord device device_id
        ∧ listing_of hass d' fname = Some f'
        ∧ f' device_id = inl x.
Proof.
  intros E Hd Habs. apply listing_of_none in Habs.
  assert (fetch hass d fname device_id = inr None) as Hfetch.
  { by rewrite fetch_listing, Habs. }
  split_and!; [done | |].
  - apply (set_integration_result _ _ _ _ _ _ _ None (Some [])); [done | | done].
    rewrite fetch_listing. unfold listing_of, with_empty_listing. simpl.
    rewrite decide_True by done. simpl. by rewrite lookup_singleton_eq.
  - intros x Hx. apply aggregation_raises in Hx. rewrite E in Hx.
    destruct Hx as (d' & Hd' & Hx).
    destruct (decide (d' = d)) as [->|Hne]; [congruence |].
    apply fetch_raises in Hx as (f' & Hf' & Hx). by exists d', f'.
Qed.

(** C7. Whatever the order in which the fetches are resumed and complete,
    the aggregation returns exactly when fetching the domains one after the
    other in the order of enumeration does, and then with the same
    sequence; so two interleavings give results that are equal as
    multisets, and issue the same calls. *)
Theorem completion_order_irrelevant hass ord fname device_id sched :
  let r := _async_get_device_automations hass ord sched fname device_id in
  let s := sequential_aggregation hass ord fname device_id in
  (∀ l, s = inr l ↔ r.2 = inr l)
  ∧ same_multiset s r.2
  ∧ ∀ sched',
      let r' := _async_get_device_automations hass ord sched' fname device_id in
      same_multiset r.2 r'.2 ∧ r.1 ≡ₚ r'.1.
Proof.
  assert (∀ sched0 l,
    sequential_aggregation hass ord fname device_id = inr l
    ↔ (_async_get_device_automations hass ord sched0 fname device_id).2
      = inr l) as Hseq.
  { intros sched0 l. unfold sequential_aggregation. split.
    - destruct (device_registry_async_get hass device_id) as [device|] eqn:E;
        [|done].
      intros Hs. pose proof (sequential_returned _ _ _ _ _ Hs) as Hall.
      rewrite sequential_returns in Hs by done. injection Hs as <-.
      apply aggregation_returns; [done |].
      intros d Hd. apply Hall. by rewrite iter_elem.
    - intros (device & -> & Hall & ->)%aggregation_returned.
      apply sequential_returns. intros d Hd. apply Hall.
      by rewrite <- (iter_elem ord).
  }
  assert (∀ sched0,
    same_multiset (sequential_aggregation hass ord fname device_id)
      (_async_get_device_automations hass ord sched0 fname device_id).2) as Hsame.
  { intros sched0. unfold same_multiset.
    destruct (sequential_aggregation hass ord fname device_id) as [x|l] eqn:Es.
    - destruct (_ .2) as [x'|l'] eqn:Er; [done |].
      apply Hseq in Er. congruence.
    - by rewrite (proj1 (Hseq sched0 l) eq_refl). }
  intros r s. split_and!; [apply Hseq | apply Hsame |].
  intros sched' r'. split.
  - pose proof (Hsame sched) as H1. pose proof (Hsame sched') as H2.
    fold s r in H1. fold s r' in H2. unfold same_multiset in *.
    destruct s, r.2, r'.2; try done. by rewrite <- H1.
  - unfold r, r'.
    destruct (device_registry_async_get hass device_id) as [device|] eqn:E.
    + by rewrite !(aggregation_calls _ _ _ _ _ _ E).
    + unfold _async_get_device_automations. by rewrite E.
Qed.

(** C8. Two calls of the same listing operation for the same device on
    the same registries and plugins agree, however the sets are enumerated
    and the fetches interleaved in either call: both fail, or both return
    and the two sequences are equal as multisets. *)
Theorem listing_idempotent hass fname device_id ord sched ord' sched' :
  same_multiset
    (_async_get_device_automations hass ord sched fname device_id).2
    (_async_get_device_automations hass ord' sched' fname device_id).2.
Proof.
  unfold same_multiset.
  destruct (_async_get_device_automations hass ord sched _ _).2
    as [x|l] eqn:Er;
  destruct (_async_get_device_automations hass ord' sched' _ _).2
    as [x'|l'] eqn:Er'; [done | | |].
  - apply aggregation_raises in Er.
    apply aggregation_returned in Er' as (device & E & Hall & _).
    rewrite E in Er. destruct Er as (d & Hd & Hx).
    rewrite (device_domains_order _ _ ord') in Hd.
    destruct (Hall d Hd) as [r Hr]. congruence.
  - apply aggregation_raises in Er'.
    apply aggregation_returned in Er as (device & E & Hall & _).
    rewrite E in Er'. destruct Er' as (d & Hd & Hx).
    rewrite (device_domains_order _ _ ord) in Hd.
    destruct (Hall d Hd) as [r Hr]. congruence.
  - apply aggregation_returned in Er as (device & E & _ & ->).
    apply aggregation_returned in Er' as (device' & E' & _ & ->).
    assert (device' = device) as -> by congruence.
    rewrite (device_domains_order _ ord ord').
    by rewrite (iter_perm ord), (iter_perm ord').
Qed.

(** C9. For a domain whose module defines the listing function asked for,
    when the call returns [None] the fetch yields what it yields for an
    absent domain and raises nothing, the aggregated result is what it is
    when the domain is unknown to the loader, and when no listing call of
    a relevant domain raises the request returns what the plugins of the
    other domains list, in the order of enumeration. *)
Theorem none_result_is_skipped hass ord sched fname device_id device d f :
  device_registry_async_get hass device_id = Some device →
  d ∈ device_domains hass ord device device_id →
  listing_of hass d fname = Some f →
  f device_id = inr None →
  fetch hass d fname device_id = inr None
  ∧ fetch (without_integration hass d) d fname device_id = inr None
  ∧ (_async_get_device_automations hass ord sched fname device_id).2
    = (_async_get_device_automations (without_integration hass d)
         ord sched fname device_id).2
  ∧ ((∀ d' f',
        d' ∈ device_domains hass ord device device_id →
        listing_of hass d' fname = Some f' →
        ∃ r, f' device_id = inr r) →
     (_async_get_device_automations hass ord sched fname device_id).2
     = inr (concat (omap (listed hass fname device_id)
                      (filter (.≠ d)
                         (iter ord (device_domains hass ord device device_id)))))).
Proof.
  intros E Hd Hf Hnone.
  assert (fetch hass d fname device_id = inr None) as Hfetch.
  { by rewrite fetch_listing, Hf, Hnone. }
  assert (fetch (without_integration hass d) d fname device_id = inr None)
    as Hfetch'.
  { rewrite fetch_listing. unfold listing_of, without_integration. simpl.
    by rewrite decide_True. }
  split_and!; [done | done | |].
  - by apply (set_integration_result _ _ _ _ _ _ _ None None).
  - intros Hall.
    rewrite (aggregation_returns _ _ _ _ _ _ E).
    + f_equal.
      rewrite (concat_omap_skip (contribution hass fname device_id) d).
      * by rewrite omap_contribution_listed.
      * unfold contribution. by rewrite Hfetch.
    + intros d' Hd'. apply fetch_returns_listing. eauto.
Qed.

End Claims.

(** * Further properties of the discovery path *)

Section CallProfile.
Context {Descriptor : Type}.
Implicit Types (hass : HomeAssistant Descriptor) (ord : SetOrder).
Implicit Types (d domain fname device_id : string).

Lemma fetch_calls_domain hass d fname device_id e :
  e ∈ fetch_calls hass d fname device_id → event_domain e = d.
Proof.
  unfold fetch_calls, _async_get_device_automations_from_domain.
  destruct (async_get_integration hass d) as [[[platform|]]|]; simpl;
    [destruct (platform !! fname) as [f|]; simpl; [destruct (f device_id) |] | |];
    simpl; rewrite ?elem_of_cons, elem_of_nil; intros H;
    repeat destruct H as [->|H]; done.
Qed.

Lemma occurrences_other_domain hass d fname device_id e :
  event_domain e ≠ d →
  occurrences e (fetch_calls hass d fname device_id) = 0.
Proof.
  intros Hne. unfold occurrences.
  pose proof (fetch_calls_domain hass d fname device_id) as Hdom.
  induction (fetch_calls hass d fname device_id) as [|e' l IH]; [done |].
  rewrite filter_cons. destruct (decide (e = e')) as [<-|_].
  - destruct Hne. apply Hdom. left.
  - apply IH. intros e'' He''. apply Hdom. by right.
Qed.

Lemma occurrences_concat hass fname device_id e (ds : list string) :
  NoDup ds →
  occurrences e (concat ((λ d, fetch_calls hass d fname device_id) <$> ds))
  = if decide (event_domain e ∈ ds)
    then occurrences e (fetch_calls hass (event_domain e) fname device_id)
    else 0.
Proof.
  unfold occurrences. induction 1 as [|d ds Hd Hds IH].
  - by rewrite decide_False by apply not_elem_of_nil.
  - rewrite fmap_cons. cbn [concat]. rewrite filter_app, length_app, IH.
    destruct (decide (event_domain e = d)) as [<-|Hne].
    + rewrite (decide_False (P := event_domain e ∈ ds)) by done.
      rewrite decide_True by left. lia.
    + pose proof (occurrences_other_domain hass d fname device_id e Hne) as H0.
      unfold occurrences in H0. rewrite H0.
      destruct (decide (event_domain e ∈ ds)).
      * rewrite decide_True; [done | by right].
      * rewrite decide_False; [done |]. by intros [?|?]%elem_of_cons.
Qed.

(** How often a request for a known device issues a call: as often as the
    fetch of the domain of the call does, when that domain is one of the
    device, and never otherwise. *)
Lemma aggregation_occurrences hass ord sched fname device_id device e :
  device_registry_async_get hass device_id = Some device →
  occurrences e (_async_get_device_automations hass ord sched fname device_id).1
  = if decide (event_domain e ∈ device_domains hass ord device device_id)
    then occurrences e (fetch_calls hass (event_domain e) fname device_id)
    else 0.
Proof.
  intros E. unfold occurrences at 1.
  rewrite (aggregation_calls _ _ _ _ _ _ E).
  pose proof (occurrences_concat hass fname device_id e
                (iter ord (device_domains hass ord device device_id))
                (iter_NoDup _ _)) as H.
  unfold occurrences at 1 in H. unfold fetch_calls at 1 in H. rewrite H.
  destruct (decide (event_domain e ∈ iter ord _)) as [Hin|Hin];
    rewrite iter_elem in Hin; [by rewrite decide_True | by rewrite decide_False].
Qed.

Lemma fetch_calls_eq hass d fname device_id :
  fetch_calls hass d fname device_id
  = EvGetIntegration d
    :: match async_get_integration hass d with
       | None => [EvLogWarning d]
       | Some _ =>
           EvGetPlatform d
           :: match listing_of hass d fname with
              | Some _ => [EvListing d fname device_id]
              | None => []
              end
       end.
Proof.
  unfold fetch_calls, listing_of, _async_get_device_automations_from_domain.
  destruct (async_get_integration hass d) as [[[platform|]]|]; simpl; try done.
  destruct (platform !! fname) as [f|]; simpl; [|done].
  by destruct (f device_id).
Qed.

(** Counting an event in an explicit list of calls. *)
Ltac count_events :=
  unfold occurrences;
  repeat (rewrite filter_cons; case_decide; simplify_eq);
  rewrite ?filter_nil; simpl; try done; try lia.

(** X1. In a request for a device of the registry the fetch of a relevant
    domain logs one warning when the loader does not know the domain, and
    asks for the device automation module once when it does; no warning
    and no such call is issued for any other domain. *)
Theorem loader_answer_profile hass ord sched fname device_id device d :
  device_registry_async_get hass device_id = Some device →
  let calls :=
    (_async_get_device_automations hass ord sched fname device_id).1 in
  let relevant := bool_decide (d ∈ device_domains hass ord device device_id) in
  occurrences (EvLogWarning d) calls
  = (if relevant
     then match async_get_integration hass d with None => 1 | Some _ => 0 end
     else 0)
  ∧ occurrences (EvGetPlatform d) calls
    = (if relevant
       then match async_get_integration hass d with Some _ => 1 | None => 0 end
       else 0).
Proof.
  intros E calls relevant. unfold calls, relevant.
  rewrite !(aggregation_occurrences _ _ _ _ _ _ _ E). simpl.
  rewrite fetch_calls_eq.
  destruct (decide (d ∈ _)) as [Hd|Hd];
    [rewrite bool_decide_true by done | by rewrite bool_decide_false].
  destruct (async_get_integration hass d) as [i|];
    [destruct (listing_of hass d fname) |]; split; count_events.
Qed.

(** X2. In a request for a device of the registry a listing function is
    called once for every relevant domain whose module defines the
    function asked for, and it is that function, called with the device
    id of the request; no other listing function, no other device id and
    no other domain is ever called, also when the request fails. *)
Theorem listing_call_profile hass ord sched fname device_id device d fn dv :
  device_registry_async_get hass device_id = Some device →
  occurrences (EvListing d fn dv)
    (_async_get_device_automations hass ord sched fname device_id).1
  = if bool_decide (d ∈ device_domains hass ord device device_id
                    ∧ fn = fname ∧ dv = device_id)
    then match listing_of hass d fname with Some _ => 1 | None => 0 end
    else 0.
Proof.
  intros E. rewrite (aggregation_occurrences _ _ _ _ _ _ _ E). simpl.
  rewrite fetch_calls_eq.
  destruct (decide (d ∈ _)) as [Hd|Hd];
    [|rewrite bool_decide_false; [done | tauto]].
  destruct (decide (fn = fname ∧ dv = device_id)) as [[-> ->]|Hne].
  - rewrite bool_decide_true by done.
    destruct (async_get_integration hass d) as [i|] eqn:Ei.
    + destruct (listing_of hass d fname); count_events.
    + unfold listing_of. rewrite Ei. count_events.
  - rewrite bool_decide_false by tauto.
    destruct (async_get_integration hass d) as [i|];
      [destruct (listing_of hass d fname) |]; count_events.
    tauto.
Qed.

Lemma length_concat_bounds {A} (ls : list (list A)) (lo hi : nat) :
  Forall (λ l, (lo ≤ length l ≤ hi)%nat) ls →
  (lo * length ls ≤ length (concat ls) ≤ hi * length ls)%nat.
Proof.
  induction 1 as [|l ls Hl _ IH]; simpl; [lia |]. rewrite length_app. lia.
Qed.

Lemma domain_calls_own hass d fname device_id :
  domain_calls d (fetch_calls hass d fname device_id)
  = fetch_calls hass d fname device_id.
Proof.
  unfold domain_calls.
  pose proof (fetch_calls_domain hass d fname device_id) as Hdom.
  induction (fetch_calls hass d fname device_id) as [|e l IH]; [done |].
  rewrite filter_cons, decide_True by (apply Hdom; left).
  f_equal. apply IH. intros e' He'. apply Hdom. by right.
Qed.

Lemma domain_calls_other hass d d' fname device_id :
  d' ≠ d → domain_calls d (fetch_calls hass d' fname device_id) = [].
Proof.
  intros Hne. unfold domain_calls.
  pose proof (fetch_calls_domain hass d' fname device_id) as Hdom.
  induction (fetch_calls hass d' fname device_id) as [|e l IH]; [done |].
  rewrite filter_cons, decide_False.
  - apply IH. intros e' He'. apply Hdom. by right.
  - rewrite (Hdom e) by left. done.
Qed.

Lemma domain_calls_concat hass d fname device_id (ds : list string) :
  NoDup ds →
  length (domain_calls d
            (concat ((λ d', fetch_calls hass d' fname device_id) <$> ds)))
  = if decide (d ∈ ds)
    then length (fetch_calls hass d fname device_id)
    else 0.
Proof.
  unfold domain_calls. induction 1 as [|d' ds Hd' Hds IH].
  - by rewrite decide_False by apply not_elem_of_nil.
  - rewrite fmap_cons. cbn [concat]. rewrite filter_app, length_app, IH.
    destruct (decide (d' = d)) as [->|Hne].
    + pose proof (domain_calls_own hass d fname device_id) as Hown.
      unfold domain_calls in Hown. rewrite Hown.
      rewrite (decide_False (P := d ∈ ds)) by done.
      rewrite decide_True by left. lia.
    + pose proof (domain_calls_other hass d d' fname device_id Hne) as Hoth.
      unfold domain_calls in Hoth. rewrite Hoth.
      destruct (decide (d ∈ ds)).
      * rewrite decide_True; [done | by right].
      * rewrite decide_False; [done |]. by intros [-> |?]%elem_of_cons.
Qed.

(** X3. In a request for a device of the registry the fetch of every
    relevant domain issues two calls or log lines, or three when the
    module of the domain defines the listing function asked for, and
    nothing is issued for any other domain; so the request issues between
    two and three per relevant domain in all. *)
Theorem calls_per_domain hass ord sched fname device_id device :
  device_registry_async_get hass device_id = Some device →
  let calls :=
    (_async_get_device_automations hass ord sched fname device_id).1 in
  let n := size (device_domains hass ord device device_id) in
  (∀ d, length (domain_calls d calls)
        = if bool_decide (d ∈ device_domains hass ord device device_id)
          then match listing_of hass d fname with Some _ => 3 | None => 2 end
          else 0)
  ∧ (2 * n ≤ length calls ≤ 3 * n)%nat.
Proof.
  intros E calls n. unfold calls. split.
  - intros d. unfold domain_calls.
    rewrite (aggregation_calls _ _ _ _ _ _ E).
    pose proof (domain_calls_concat hass d fname device_id
                  (iter ord (device_domains hass ord device device_id))
                  (iter_NoDup _ _)) as H.
    unfold domain_calls, fetch_calls at 1 in H. rewrite H.
    destruct (decide (d ∈ iter ord _)) as [Hin|Hin]; rewrite iter_elem in Hin;
      [rewrite bool_decide_true by done | by rewrite bool_decide_false].
    rewrite fetch_calls_eq. unfold listing_of.
    destruct (async_get_integration hass d) as [[[platform|]]|]; simpl;
      [by destruct (platform !! fname) | done | done].
  - rewrite (aggregation_calls _ _ _ _ _ _ E).
    assert (n = length ((λ d, coro_events
                                (_async_get_device_automations_from_domain
                                   hass d fname device_id))
                          <$> iter ord
                                (device_domains hass ord device device_id)))
      as ->.
    { rewrite length_fmap, (iter_perm ord). done. }
    apply length_concat_bounds, Forall_fmap, Forall_forall. intros d _.
    pose proof (fetch_calls_eq hass d fname device_id) as Hc.
    unfold fetch_calls in Hc. unfold compose. rewrite Hc.
    destruct (async_get_integration hass d);
      [destruct (listing_of hass d fname) |]; simpl; lia.
Qed.

End CallProfile.

Section Independence.
Context {Descriptor : Type}.
Implicit Types (hass : HomeAssistant Descriptor) (ord : SetOrder).
Implicit Types (d domain fname device_id : string).

(** A change of the loader's answer for one domain that leaves the fetch
    of every relevant domain as it was leaves the request as it was. *)
Lemma set_integration_same_tasks hass ord sched fname device_id d i :
  (∀ device d',
     device_registry_async_get hass device_id = Some device →
     d' ∈ device_domains hass ord device device_id →
     _async_get_device_automations_from_domain
       (set_integration hass d i) d' fname device_id
     = _async_get_device_automations_from_domain hass d' fname device_id) →
  _async_get_device_automations (set_integration hass d i)
    ord sched fname device_id
  = _async_get_device_automations hass ord sched fname device_id.
Proof.
  intros Hsame.
  destruct (device_registry_async_get hass device_id) as [device|] eqn:E;
    [|unfold _async_get_device_automations; simpl; by rewrite E].
  assert (device_registry_async_get (set_integration hass d i) device_id
          = Some device) as E' by done.
  rewrite (aggregation_known _ _ _ _ _ _ E), (aggregation_known _ _ _ _ _ _ E').
  change (device_domains (set_integration hass d i) ord device device_id)
    with (device_domains hass ord device device_id).
  assert ((λ d', _async_get_device_automations_from_domain
                   (set_integration hass d i) d' fname device_id)
            <$> iter ord (device_domains hass ord device device_id)
          = (λ d', _async_get_device_automations_from_domain
                     hass d' fname device_id)
              <$> iter ord (device_domains hass ord device device_id)) as ->;
    [|done].
  apply list_fmap_ext. intros _ d' Hd'%list_elem_of_lookup_2.
  apply (Hsame device); [done |]. by rewrite <- (iter_elem ord).
Qed.

(** X4. What the loader answers for a domain that is neither the domain of
    a config entry of the device nor the domain of one of its entities
    changes nothing in a request for that device: neither its calls nor
    its result. *)
Theorem irrelevant_domain_ignored hass ord sched fname device_id d i :
  (∀ device, device_registry_async_get hass device_id = Some device →
             d ∉ device_domains hass ord device device_id) →
  _async_get_device_automations (set_integration hass d i)
    ord sched fname device_id
  = _async_get_device_automations hass ord sched fname device_id.
Proof.
  intros Hirr. apply set_integration_same_tasks.
  intros device d' E Hd'.
  unfold _async_get_device_automations_from_domain. simpl.
  rewrite decide_False; [done |]. intros ->. by apply (Hirr device).
Qed.

(** X5. A request for one of the listing functions does not depend on
    what the device automation modules define as the other listing
    functions: defining, redefining or removing the listing function of
    another kind, for any domain, changes neither the calls nor the
    result. *)
Theorem other_listing_functions_ignored
    hass ord sched fname device_id d name o :
  name ∈ listing_functions →
  name ≠ fname →
  _async_get_device_automations (set_listing_function hass d name o)
    ord sched fname device_id
  = _async_get_device_automations hass ord sched fname device_id.
Proof.
  intros _ Hne. apply set_integration_same_tasks.
  intros device d' _ _.
  unfold _async_get_device_automations_from_domain. simpl.
  destruct (decide (d' = d)) as [->|]; [|done].
  destruct (async_get_integration hass d) as [[[platform|]]|]; simpl; try done.
  by rewrite lookup_partial_alter_ne.
Qed.

(** X6. A request returns a list exactly when the device is in the
    registry and every listing function that a relevant domain defines
    under the name asked for returns when called with the device id. *)
Theorem returns_iff_listings_return hass ord sched fname device_id :
  (∃ l, (_async_get_device_automations hass ord sched fname device_id).2
        = inr l)
  ↔ ∃ device,
      device_registry_async_get hass device_id = Some device
      ∧ ∀ d f,
          d ∈ device_domains hass ord device device_id →
          listing_of hass d fname = Some f →
          ∃ r, f device_id = inr r.
Proof.
  split.
  - intros [l (device & E & Hall & _)%aggregation_returned].
    exists device. split; [done |]. intros d f Hd Hf.
    destruct (Hall d Hd) as [r Hr]. rewrite fetch_listing, Hf in Hr.
    destruct (f device_id) as [x|r']; [done | eauto].
  - intros (device & E & Hall). eexists.
    apply (aggregation_returns _ _ _ _ _ _ E).
    intros d Hd. rewrite fetch_listing.
    destruct (listing_of hass d fname) as [f|] eqn:Hf; [|eauto].
    destruct (Hall d f Hd Hf) as [r ->]. eauto.
Qed.

(** X7. An exception that leaves a request is either the one of the
    unknown device, and then the registry does not know the device, or was
    raised by the listing function asked for of a relevant domain, called
    with the device id of the request. *)
Theorem exception_origin hass ord sched fname device_id x :
  (_async_get_device_automations hass ord sched fname device_id).2 = inl x →
  (device_registry_async_get hass device_id = None
   ∧ x = DeviceNotFound device_id)
  ∨ ∃ device d f,
      device_registry_async_get hass device_id = Some device
      ∧ d ∈ device_domains hass ord device device_id
      ∧ listing_of hass d fname = Some f
      ∧ f device_id = inl x.
Proof.
  intros Hx%aggregation_raises.
  destruct (device_registry_async_get hass device_id) as [device|];
    [right | by left].
  destruct Hx as (d & Hd & (f & Hf & Hx)%fetch_raises).
  by exists device, d, f.
Qed.

Lemma fold_add_size {A} (f : A → string) (l : list A) (s : gset string) :
  (size (foldl (λ domains x, domains ∪ {[ f x ]}) s l) ≤ size s + length l)%nat.
Proof.
  revert s. induction l as [|a l IH]; intros s; simpl; [lia |].
  etrans; [apply IH |].
  rewrite size_union_alt.
  assert (size (({[ f a ]} : gset string) ∖ s) ≤ 1)%nat; [|lia].
  rewrite <- (size_singleton (C := gset string) (f a)).
  apply subseteq_size. intros x Hx.
  by apply elem_of_difference in Hx as [Hx _].
Qed.

(** X8. The number of fetches of a request is at most the number of config
    entries of the device plus the number of its entities. *)
Theorem fan_out_bounded hass ord device device_id :
  (length (iter ord (device_domains hass ord device device_id))
   ≤ size (config_entries device)
     + length (async_entries_for_device hass device_id))%nat.
Proof.
  rewrite (iter_perm ord). change (length (elements ?s)) with (size s).
  unfold device_domains.
  etrans; [apply fold_add_size |].
  apply Nat.add_le_mono_r.
  etrans; [apply fold_add_size |].
  rewrite size_empty, (iter_perm ord). done.
Qed.

End Independence.

(** * The request schema and the registration of the commands *)

Section Commands.
Context {Descriptor : Type}.
Implicit Types (hass : HomeAssistant Descriptor) (ord : SetOrder).

Lemma request_lookup (id : Z) (command device_id k : string) :
  request id command device_id !! k
  = if decide (k = "id") then Some (PInt id)
    else if decide (k = "type") then Some (PStr command)
    else if decide (k = "device_id") then Some (PStr device_id)
    else None.
Proof.
  unfold request. repeat case_decide; subst; by simplify_map_eq.
Qed.

(** X9. A message that the schema of a command accepts has the type of
    that command and a string as its device id, and this string is the
    device id that the handler is given: a message of another type, or
    with no device id, or with a device id that is not a string, does not
    reach the handler. *)
Theorem schema_requirements (command : string) (raw : gmap string pyval) m :
  websocket_command command raw = Some m →
  raw !! "type" = Some (PStr command)
  ∧ msg_type m = command
  ∧ raw !! "device_id" = Some (PStr (msg_device_id m)).
Proof.
  unfold websocket_command, schema. cbn [forallb fst snd].
  destruct (raw !! "id") as [[| |id|]|]; cbn [from_option check]; try done.
  destruct (raw !! "type") as [[| | |type]|]; cbn [from_option check];
    rewrite ?andb_false_r; try done.
  destruct (raw !! "device_id") as [[| | |device_id]|];
    cbn [from_option check]; rewrite ?andb_false_r; try done.
  destruct (bool_decide (0 < id)%Z); [|done].
  destruct (bool_decide (command = type)) eqn:Hty; [|done].
  apply bool_decide_eq_true in Hty as <-.
  destruct (true && _ && _); [|done]. by intros [= <-].
Qed.

Lemma handle_request hass ord sched (id : Z) (device_id : string) :
  (0 < id)%Z →
  Forall (λ op,
            handle op.1.1 op.2 (request id op.1.1 device_id)
            = respond id
                (_async_get_device_automations hass ord sched op.1.2
                   device_id))
         (listing_operations hass ord sched).
Proof.
  intros Hid. eapply Forall_impl; [apply handlers_respond |].
  intros [[command fname] handler] H. cbn [fst snd] in *.
  unfold handle. rewrite websocket_command_request by done. by rewrite H.
Qed.

(** X10. After [async_setup], whatever was registered before, a request
    for one of the three commands reaches the aggregation with the listing
    function of that command and the device id of the request; the entry
    of every other command is as it was, and the setup reports success. *)
Theorem setup_registers_commands
    hass (table : gmap string (command_handler Descriptor))
    ord sched (id : Z) (device_id : string) :
  (0 < id)%Z →
  (async_setup hass table).1 = true
  ∧ Forall (λ op,
              dispatch (async_setup hass table).2 ord sched
                (request id op.1.1 device_id)
              = respond id
                  (_async_get_device_automations hass ord sched op.1.2
                     device_id))
           (listing_operations hass ord sched)
  ∧ ∀ command,
      command ∉ (λ op, op.1.1) <$> listing_operations hass ord sched →
      (async_setup hass table).2 !! command = table !! command.
Proof.
  intros Hid. split_and!; [done | |].
  - pose proof (handle_request hass ord sched id device_id Hid) as H.
    unfold listing_operations in *.
    rewrite !Forall_cons in H. destruct H as (Ha & Hc & Ht & _).
    cbn [fst snd] in *.
    repeat constructor; cbn [fst snd]; unfold dispatch;
      rewrite request_lookup; simpl; unfold async_register_command;
      by simplify_map_eq.
  - intros command Hc. simpl in Hc. unfold async_setup, async_register_command.
    cbn [snd]. rewrite !lookup_insert_ne; [done | | |];
      intros <-; apply Hc; set_solver.
Qed.

End Commands.

(** * The condition of a device automation *)

Section ConditionFacts.
Context {Descriptor Checker : Type}.
Implicit Types (hass : HomeAssistant Descriptor).
Implicit Types (env : ConditionEnv Checker).

(** X11. Where the listing of automations skips a domain that the loader
    does not know or that has no device automation module,
    [async_device_condition_from_config] fails for a configuration of
    such a domain: with [IntegrationNotFound] in the first case, with the
    [ImportError] in the second, and without calling
    [async_condition_from_config]. *)
Theorem condition_does_not_absorb
    env hass (config : gmap string pyval) (config_validation : bool) config' d :
  (if config_validation then DEVICE_CONDITION_SCHEMA env config
   else inr config) = inr config' →
  config' !! CONF_DOMAIN = Some (PStr d) →
  (integration_not_found hass d →
   async_device_condition_from_config env hass config config_validation
   = ([CvGetIntegration (PStr d)], inl (IntegrationNotFound d))
   ∧ ∀ fname device_id, fetch hass d fname device_id = inr None)
  ∧ (no_capability_module hass d →
     async_device_condition_from_config env hass config config_validation
     = ([CvGetIntegration (PStr d); CvGetPlatform d], inl (ImportError d))
     ∧ ∀ fname device_id, fetch hass d fname device_id = inr None).
Proof.
  intros Hv Hd. unfold async_device_condition_from_config.
  rewrite Hv, Hd. split.
  - intros Hnf. split.
    + unfold integration_not_found in Hnf. by rewrite Hnf.
    + intros fname device_id. rewrite fetch_listing.
      by rewrite (proj2 (listing_of_none hass d fname) (or_introl Hnf)).
  - intros Hno. split.
    + destruct Hno as (i & -> & ->). done.
    + intros fname device_id. rewrite fetch_listing.
      by rewrite (proj2 (listing_of_none hass d fname)
                    (or_intror (or_introl Hno))).
Qed.

(** X12. With validation asked for, a configuration that the schema
    rejects fails with the error of the schema and nothing is asked of the
    loader; with validation not asked for, the schema plays no part, and
    [async_condition_from_config] is given the configuration as it came
    and the flag as it came. *)
Theorem condition_validation_gate env hass (config : gmap string pyval) :
  (∀ x, DEVICE_CONDITION_SCHEMA env config = inl x →
        async_device_condition_from_config env hass config true
        = ([], inl x))
  ∧ (∀ schema,
       async_device_condition_from_config (with_schema env schema)
         hass config false
       = async_device_condition_from_config env hass config false)
  ∧ ∀ d c b,
      CvConditionFromConfig d c b
      ∈ (async_device_condition_from_config env hass config false).1 →
      c = config ∧ b = false.
Proof.
  unfold async_device_condition_from_config. split_and!.
  - intros x Hx. by rewrite Hx.
  - done.
  - intros d c b He. cbn [fst] in He.
    destruct (config !! CONF_DOMAIN) as [[| | |d']|];
      [| | | destruct (async_get_integration hass d') as [[[platform|]]|];
             [destruct (async_condition_from_config env d') | |] |];
      simpl in He; rewrite ?elem_of_cons, ?elem_of_nil in He;
      intuition congruence.
Qed.

(** X13. [async_device_condition_from_config] returns a checker only for a
    configuration that, validated when validation is asked for, names as
    its domain a string that the loader knows, whose integration has a
    device automation module that defines [async_condition_from_config];
    the checker is what that function returns for the validated
    configuration and the flag, and it is called once. *)
Theorem condition_returned
    env hass (config : gmap string pyval) (config_validation : bool) calls k :
  async_device_condition_from_config env hass config config_validation
  = (calls, inr k) →
  ∃ config' d integration platform from_config,
    (if config_validation then DEVICE_CONDITION_SCHEMA env config
     else inr config) = inr config'
    ∧ config' !! CONF_DOMAIN = Some (PStr d)
    ∧ async_get_integration hass d = Some integration
    ∧ get_platform integration = Some platform
    ∧ async_condition_from_config env d = Some from_config
    ∧ from_config config' config_validation = inr k
    ∧ calls = [CvGetIntegration (PStr d); CvGetPlatform d;
               CvConditionFromConfig d config' config_validation].
Proof.
  unfold async_device_condition_from_config.
  destruct (if config_validation then _ else _) as [x|config']; [done |].
  destruct (config' !! CONF_DOMAIN) as [[| | |d]|] eqn:Ed; try done.
  destruct (async_get_integration hass d) as [integration|] eqn:Ei; [|done].
  destruct (get_platform integration) as [platform|] eqn:Ep; [|done].
  destruct (async_condition_from_config env d) as [from_config|] eqn:Ef;
    [|done].
  intros [= <- Hk]. by exists config', d, integration, platform, from_config.
Qed.

End ConditionFacts.

(** * The theorems at a concrete installation *)

Section Instances.
Import Demo.

Example domains_of_D :
  elements (device_domains hass elements_order D "D")
  = ["sensor"; "alarm"; "light"].
Proof. vm_compute. reflexivity. Qed.

Example split_two_separators :
  split_entity_id "sensor.battery.level" = ["sensor"; "battery.level"].
Proof. reflexivity. Qed.

Example split_no_separator : split_entity_id "sensor" = ["sensor"].
Proof. reflexivity. Qed.

(** [alarm] has no module, [light] has one trigger, [sensor] has none. *)
Example list_triggers_D :
  websocket_device_automation_list_triggers hass elements_order [2; 0; 1; 1; 2]
    {| msg_id := 5; msg_type := "device_automation/trigger/list";
       msg_device_id := "D" |}
  = ([EvGetIntegration "light"; EvGetIntegration "sensor";
      EvGetIntegration "alarm"; EvGetPlatform "alarm"; EvGetPlatform "light";
      EvGetPlatform "sensor"; EvListing "light" "async_get_triggers" "D"],
     ResultMessage 5 ["T1"]).
Proof. vm_compute. reflexivity. Qed.

Example list_actions_unknown_device :
  _async_get_device_automations hass reverse_order [0; 1] "async_get_actions" "D2"
  = ([], inl (DeviceNotFound "D2")).
Proof. vm_compute. reflexivity. Qed.

Example list_conditions_D3 :
  _async_get_device_automations hass elements_order [] "async_get_conditions" "D3"
  = ([EvGetIntegration "climate"; EvGetPlatform "climate";
      EvListing "climate" "async_get_conditions" "D3"],
     inl (PluginError "boom")).
Proof. vm_compute. reflexivity. Qed.

Example list_actions_D4_unknown_integration :
  _async_get_device_automations hass elements_order [1; 0; 2] "async_get_actions" "D4"
  = ([EvGetIntegration "zwave"; EvGetIntegration "sensor";
      EvGetIntegration "light"; EvGetPlatform "sensor";
      EvListing "sensor" "async_get_actions" "D4"; EvLogWarning "zwave";
      EvGetPlatform "light"; EvListing "light" "async_get_actions" "D4"],
     inr ["A1"; "A2"]).
Proof. vm_compute. reflexivity. Qed.

(** The domains of the demonstration devices, for case analysis. *)
Lemma domains_D d :
  d ∈ device_domains hass elements_order D "D" →
  d = "sensor" ∨ d = "alarm" ∨ d = "light".
Proof.
  rewrite <- elem_of_elements, domains_of_D, !elem_of_cons, elem_of_nil.
  tauto.
Qed.

Lemma unknown_device_fails_witness :
  device_registry_async_get hass "D2" = None
  ∧ Forall (λ op,
              _async_get_device_automations hass elements_order [1; 0] op.1.2 "D2"
              = ([], inl (DeviceNotFound "D2"))
              ∧ ∀ msg, msg_device_id msg = "D2" →
                       op.2 msg
                       = ([], ErrorMessage (Some (msg_id msg)) "unknown_error"))
           (listing_operations hass elements_order [1; 0]).
Proof.
  split; [reflexivity |].
  apply (unknown_device_fails hass elements_order [1; 0] "D2"). reflexivity.
Defined.

Lemma plugin_error_propagates_witness :
  device_registry_async_get hass "D3" = Some D3
  ∧ "climate" ∈ device_domains hass elements_order D3 "D3"
  ∧ listing_of hass "climate" "async_get_conditions"
    = Some (λ _, inl (PluginError "boom"))
  ∧ (_async_get_device_automations hass elements_order [0; 0]
       "async_get_conditions" "D3").2
    = inl (PluginError "boom").
Proof.
  assert ("climate" ∈ device_domains hass elements_order D3 "D3") as Hd.
  { apply elem_of_elements. vm_compute. left. }
  split_and!; [reflexivity | exact Hd | reflexivity |].
  destruct (plugin_error_propagates hass elements_order [0; 0]
              "async_get_conditions" "D3" D3 "climate"
              (λ _, inl (PluginError "boom")) (PluginError "boom")
              eq_refl Hd eq_refl eq_refl) as (_ & Honly & _).
  apply Honly. intros d' f' x' Hd'.
  apply elem_of_elements in Hd'. vm_compute in Hd'.
  apply list_elem_of_singleton in Hd' as ->.
  intros [= <-] [= <-]. reflexivity.
Defined.

(** C2 as first stated, with the request failing with the very error of
    any raising listing call, does not hold: on [TwoErrors.hass] the
    listing call of [light] raises one error and the request fails with
    the error of [sensor]. *)
Lemma plugin_error_propagates_counterexample :
  ¬ (∀ (hass : HomeAssistant string) ord sched fname device_id device d f x,
       device_registry_async_get hass device_id = Some device →
       d ∈ device_domains hass ord device device_id →
       listing_of hass d fname = Some f →
       f device_id = inl x →
       (_async_get_device_automations hass ord sched fname device_id).2
       = inl x).
Proof.
  intros H.
  assert ("light"
          ∈ device_domains TwoErrors.hass elements_order TwoErrors.D5 "D5")
    as Hd.
  { apply elem_of_elements. vm_compute. right. left. }
  specialize (H TwoErrors.hass elements_order [] "async_get_actions" "D5"
                TwoErrors.D5 "light" (λ _, inl (PluginError "l"))
                (PluginError "l") eq_refl Hd eq_refl eq_refl).
  vm_compute in H. discriminate H.
Qed.

Example two_errors_first_wins :
  (_async_get_device_automations TwoErrors.hass elements_order []
     "async_get_actions" "D5").2 = inl (PluginError "s")
  ∧ (_async_get_device_automations TwoErrors.hass elements_order [1; 1; 1]
       "async_get_actions" "D5").2 = inl (PluginError "l").
Proof. split; vm_compute; reflexivity. Qed.

Lemma absent_domain_is_harmless_witness :
  device_registry_async_get hass "D" = Some D
  ∧ "alarm" ∈ device_domains hass elements_order D "D"
  ∧ no_capability_module hass "alarm"
  ∧ fetch hass "alarm" "async_get_triggers" "D" = inr None
  ∧ (_async_get_device_automations hass elements_order [2; 1]
       "async_get_triggers" "D").2
    = (_async_get_device_automations
         (with_empty_listing hass "alarm" "async_get_triggers")
         elements_order [2; 1] "async_get_triggers" "D").2.
Proof.
  assert ("alarm" ∈ device_domains hass elements_order D "D") as Hd.
  { apply elem_of_elements. rewrite domains_of_D. right. left. }
  assert (no_capability_module hass "alarm") as Hno.
  { exists alarm. split; reflexivity. }
  destruct (absent_domain_is_harmless hass elements_order [2; 1]
              "async_get_triggers" "D" D "alarm" eq_refl Hd
              (or_intror (or_introl Hno))) as (Hfetch & Hsame & _).
  split_and!; [reflexivity | exact Hd | exact Hno | exact Hfetch | exact Hsame].
Defined.

Lemma fan_out_domains_witness :
  device_registry_async_get hass "D" = Some D
  ∧ NoDup (iter elements_order (device_domains hass elements_order D "D"))
  ∧ occurrences (EvGetIntegration "light")
      (_async_get_device_automations hass elements_order [1; 2; 1]
         "async_get_actions" "D").1
    = 1
  ∧ occurrences (EvGetIntegration "climate")
      (_async_get_device_automations hass elements_order [1; 2; 1]
         "async_get_actions" "D").1
    = 0.
Proof.
  destruct (fan_out_domains hass elements_order [1; 2; 1]
              "async_get_actions" "D" D eq_refl) as (Hnd & _ & Hocc).
  split_and!; [reflexivity | exact Hnd | |].
  - rewrite (Hocc "light"). reflexivity.
  - rewrite (Hocc "climate"). reflexivity.
Defined.

Lemma merged_in_enumeration_order_witness :
  device_registry_async_get hass "D" = Some D
  ∧ (∀ d, d ∈ device_domains hass elements_order D "D" →
          ∃ r, fetch hass d "async_get_actions" "D" = inr r)
  ∧ (_async_get_device_automations hass elements_order [0; 2; 2]
       "async_get_actions" "D").2
    = inr ["A1"; "A2"].
Proof.
  assert (∀ d, d ∈ device_domains hass elements_order D "D" →
               ∃ r, fetch hass d "async_get_actions" "D" = inr r) as Hall.
  { intros d [-> |[-> | ->]]%domains_D; eexists; reflexivity. }
  destruct (merged_in_enumeration_order hass elements_order [0; 2; 2]
              "async_get_actions" "D" D eq_refl Hall) as [Hres _].
  split_and!; [reflexivity | exact Hall |].
  rewrite Hres. reflexivity.
Defined.

Lemma no_domains_empty_result_witness :
  device_registry_async_get hass "D0" = Some D0
  ∧ config_entries D0 = ∅
  ∧ async_entries_for_device hass "D0" = []
  ∧ Forall (λ op,
              _async_get_device_automations hass elements_order [3] op.1.2 "D0"
              = ([], inr [])
              ∧ ∀ msg, msg_device_id msg = "D0" →
                       op.2 msg = ([], ResultMessage (msg_id msg) []))
           (listing_operations hass elements_order [3]).
Proof.
  split_and!; [reflexivity | reflexivity | reflexivity |].
  apply (no_domains_empty_result hass elements_order [3] "D0" D0);
    reflexivity.
Defined.

Lemma none_result_is_skipped_witness :
  device_registry_async_get hass "D" = Some D
  ∧ "light" ∈ device_domains hass elements_order D "D"
  ∧ listing_of hass "light" "async_get_actions" = Some (λ _, inr None)
  ∧ fetch hass "light" "async_get_actions" "D" = inr None
  ∧ (_async_get_device_automations hass elements_order [2; 2; 2; 0]
       "async_get_actions" "D").2
    = (_async_get_device_automations (without_integration hass "light")
         elements_order [2; 2; 2; 0] "async_get_actions" "D").2
  ∧ (_async_get_device_automations hass elements_order [2; 2; 2; 0]
       "async_get_actions" "D").2
    = inr ["A1"; "A2"].
Proof.
  assert ("light" ∈ device_domains hass elements_order D "D") as Hd.
  { apply elem_of_elements. rewrite domains_of_D. right. right. left. }
  assert (∀ d' f',
            d' ∈ device_domains hass elements_order D "D" →
            listing_of hass d' "async_get_actions" = Some f' →
            ∃ r, f' "D" = inr r) as Hall.
  { intros d' f' [-> |[-> | ->]]%domains_D Hf'; cbv in Hf';
      [injection Hf' as <- | discriminate | injection Hf' as <-];
      eexists; reflexivity. }
  destruct (none_result_is_skipped hass elements_order [2; 2; 2; 0]
              "async_get_actions" "D" D "light" (λ _, inr None)
              eq_refl Hd eq_refl eq_refl) as (Hfetch & _ & Hsame & Hothers).
  split_and!; [reflexivity | exact Hd | reflexivity | exact Hfetch
               | exact Hsame |].
  rewrite (Hothers Hall). vm_compute. reflexivity.
Defined.

Lemma any_device_id_accepted_witness :
  (0 < 7)%Z
  ∧ Forall (λ op,
              websocket_command op.1.1 (request 7 op.1.1 "")
              = Some {| msg_id := 7; msg_type := op.1.1; msg_device_id := "" |}
              ∧ handle op.1.1 op.2 (request 7 op.1.1 "")
                = respond 7
                    (_async_get_device_automations hass elements_order [0]
                       op.1.2 ""))
           (listing_operations hass elements_order [0]).
Proof.
  split; [reflexivity |].
  apply (any_device_id_accepted hass elements_order [0] 7 ""). reflexivity.
Defined.

End Instances.

(** * The further properties at a concrete installation *)

Section MoreInstances.
Import Demo.

Lemma loader_answer_profile_witness :
  device_registry_async_get hass "D4" = Some D4
  ∧ occurrences (EvLogWarning "zwave")
      (_async_get_device_automations hass elements_order [1; 0]
         "async_get_actions" "D4").1 = 1
  ∧ occurrences (EvGetPlatform "zwave")
      (_async_get_device_automations hass elements_order [1; 0]
         "async_get_actions" "D4").1 = 0.
Proof.
  pose proof (loader_answer_profile hass elements_order [1; 0]
                "async_get_actions" "D4" D4 "zwave" eq_refl) as H.
  cbv zeta in H. destruct H as [H1 H2].
  split_and!; [reflexivity | rewrite H1; reflexivity | rewrite H2; reflexivity].
Defined.

Lemma listing_call_profile_witness :
  device_registry_async_get hass "D" = Some D
  ∧ occurrences (EvListing "sensor" "async_get_actions" "D")
      (_async_get_device_automations hass elements_order [2; 2]
         "async_get_actions" "D").1 = 1
  ∧ occurrences (EvListing "light" "async_get_triggers" "D")
      (_async_get_device_automations hass elements_order [2; 2]
         "async_get_actions" "D").1 = 0.
Proof.
  split_and!; [reflexivity | |].
  - rewrite (listing_call_profile hass elements_order [2; 2]
               "async_get_actions" "D" D "sensor" "async_get_actions" "D"
               eq_refl).
    reflexivity.
  - rewrite (listing_call_profile hass elements_order [2; 2]
               "async_get_actions" "D" D "light" "async_get_triggers" "D"
               eq_refl).
    reflexivity.
Defined.

Lemma calls_per_domain_witness :
  device_registry_async_get hass "D" = Some D
  ∧ length (domain_calls "light"
              (_async_get_device_automations hass elements_order [0; 1]
                 "async_get_triggers" "D").1) = 3
  ∧ length (domain_calls "alarm"
              (_async_get_device_automations hass elements_order [0; 1]
                 "async_get_triggers" "D").1) = 2
  ∧ length (domain_calls "climate"
              (_async_get_device_automations hass elements_order [0; 1]
                 "async_get_triggers" "D").1) = 0
  ∧ (6 ≤ length (_async_get_device_automations hass elements_order [0; 1]
                   "async_get_triggers" "D").1 ≤ 9)%nat.
Proof.
  pose proof (calls_per_domain hass elements_order [0; 1]
                "async_get_triggers" "D" D eq_refl) as H.
  cbv zeta in H. destruct H as [Hper Htotal].
  refine (conj eq_refl (conj _ (conj _ (conj _ Htotal)))).
  - rewrite (Hper "light"). reflexivity.
  - rewrite (Hper "alarm"). reflexivity.
  - rewrite (Hper "climate"). reflexivity.
Defined.

Lemma irrelevant_domain_ignored_witness :
  (∀ device, device_registry_async_get hass "D" = Some device →
             "climate" ∉ device_domains hass elements_order device "D")
  ∧ _async_get_device_automations (set_integration hass "climate" None)
      elements_order [1] "async_get_actions" "D"
    = _async_get_device_automations hass elements_order [1]
        "async_get_actions" "D".
Proof.
  assert (∀ device, device_registry_async_get hass "D" = Some device →
                    "climate" ∉ device_domains hass elements_order device "D")
    as Hirr.
  { intros device E. change (Some D = Some device) in E. injection E as <-.
    rewrite <- elem_of_elements, domains_of_D, !elem_of_cons, elem_of_nil.
    intuition discriminate. }
  split; [exact Hirr |].
  apply (irrelevant_domain_ignored hass elements_order [1]
           "async_get_actions" "D" "climate" None Hirr).
Defined.

Lemma other_listing_functions_ignored_witness :
  "async_get_triggers" ∈ listing_functions
  ∧ "async_get_triggers" ≠ "async_get_actions"
  ∧ _async_get_device_automations
      (set_listing_function hass "light" "async_get_triggers"
         (Some (λ _, inl (PluginError "broken"))))
      elements_order [0; 2] "async_get_actions" "D"
    = _async_get_device_automations hass elements_order [0; 2]
        "async_get_actions" "D".
Proof.
  assert ("async_get_triggers" ∈ listing_functions) as Hin.
  { unfold listing_functions. right. right. left. }
  assert ("async_get_triggers" ≠ "async_get_actions") as Hne by discriminate.
  split_and!; [exact Hin | exact Hne |].
  apply (other_listing_functions_ignored hass elements_order [0; 2]
           "async_get_actions" "D" "light" "async_get_triggers" _ Hin Hne).
Defined.

Lemma exception_origin_witness :
  (_async_get_device_automations hass elements_order [0]
     "async_get_conditions" "D3").2 = inl (PluginError "boom")
  ∧ ((device_registry_async_get hass "D3" = None
      ∧ PluginError "boom" = DeviceNotFound "D3")
     ∨ ∃ device d f,
         device_registry_async_get hass "D3" = Some device
         ∧ d ∈ device_domains hass elements_order device "D3"
         ∧ listing_of hass d "async_get_conditions" = Some f
         ∧ f "D3" = inl (PluginError "boom")).
Proof.
  assert ((_async_get_device_automations hass elements_order [0]
             "async_get_conditions" "D3").2 = inl (PluginError "boom")) as Hx.
  { vm_compute. reflexivity. }
  split; [exact Hx |].
  apply (exception_origin hass elements_order [0]
           "async_get_conditions" "D3" (PluginError "boom") Hx).
Defined.

Lemma schema_requirements_witness :
  websocket_command "device_automation/action/list"
    (request 4 "device_automation/action/list" "")
  = Some {| msg_id := 4; msg_type := "device_automation/action/list";
            msg_device_id := "" |}
  ∧ request 4 "device_automation/action/list" "" !! "device_id"
    = Some (PStr "").
Proof.
  assert (websocket_command "device_automation/action/list"
            (request 4 "device_automation/action/list" "")
          = Some {| msg_id := 4; msg_type := "device_automation/action/list";
                    msg_device_id := "" |}) as H.
  { vm_compute. reflexivity. }
  split; [exact H |].
  destruct (schema_requirements _ _ _ H) as (_ & _ & Hd). exact Hd.
Defined.

Example rejected_device_id_not_a_string :
  websocket_command "device_automation/action/list"
    {[ "id" := PInt 4; "type" := PStr "device_automation/action/list";
       "device_id" := PInt 17 ]}
  = None.
Proof. vm_compute. reflexivity. Qed.

Example rejected_other_command :
  handle "device_automation/action/list"
    (websocket_device_automation_list_actions hass elements_order [])
    (request 4 "device_automation/trigger/list" "D")
  = ([], ErrorMessage (Some 4%Z) "invalid_format").
Proof. vm_compute. reflexivity. Qed.

Lemma setup_registers_commands_witness :
  (0 < 3)%Z
  ∧ dispatch (async_setup hass ∅).2 elements_order [0; 1]
      (request 3 "device_automation/trigger/list" "D")
    = respond 3
        (_async_get_device_automations hass elements_order [0; 1]
           "async_get_triggers" "D").
Proof.
  split; [reflexivity |].
  destruct (setup_registers_commands hass ∅ elements_order [0; 1] 3 "D"
              eq_refl) as (_ & H & _).
  unfold listing_operations in H. rewrite !Forall_cons in H.
  destruct H as (_ & _ & H & _). exact H.
Defined.

Lemma condition_does_not_absorb_witness :
  DemoCondition.schema (DemoCondition.config "zwave")
  = inr (<["validated" := PBool true]> (DemoCondition.config "zwave"))
  ∧ integration_not_found hass "zwave"
  ∧ async_device_condition_from_config DemoCondition.env hass
      (DemoCondition.config "zwave") true
    = ([CvGetIntegration (PStr "zwave")], inl (IntegrationNotFound "zwave"))
  ∧ fetch hass "zwave" "async_get_conditions" "D4" = inr None.
Proof.
  assert (integration_not_found hass "zwave") as Hnf by reflexivity.
  destruct (condition_does_not_absorb DemoCondition.env hass
              (DemoCondition.config "zwave") true
              (<["validated" := PBool true]> (DemoCondition.config "zwave"))
              "zwave" eq_refl eq_refl) as [H _].
  destruct (H Hnf) as [H1 H2].
  split_and!; [reflexivity | exact Hnf | exact H1 | apply H2].
Defined.

Lemma condition_returned_witness :
  async_device_condition_from_config DemoCondition.env hass
    (DemoCondition.config "light") false
  = ([CvGetIntegration (PStr "light"); CvGetPlatform "light";
      CvConditionFromConfig "light" (DemoCondition.config "light") false],
     inr "D")
  ∧ ∃ config' d integration platform from_config,
      (inr (DemoCondition.config "light") : cond_exn + gmap string pyval)
      = inr config'
      ∧ config' !! CONF_DOMAIN = Some (PStr d)
      ∧ async_get_integration hass d = Some integration
      ∧ get_platform integration = Some platform
      ∧ async_condition_from_config DemoCondition.env d = Some from_config
      ∧ from_config config' false = inr "D"
      ∧ [CvGetIntegration (PStr "light"); CvGetPlatform "light";
         CvConditionFromConfig "light" (DemoCondition.config "light") false]
        = [CvGetIntegration (PStr d); CvGetPlatform d;
           CvConditionFromConfig d config' false].
Proof.
  assert (async_device_condition_from_config DemoCondition.env hass
            (DemoCondition.config "light") false
          = ([CvGetIntegration (PStr "light"); CvGetPlatform "light";
              CvConditionFromConfig "light" (DemoCondition.config "light")
                false],
             inr "D")) as H by reflexivity.
  split; [exact H |].
  apply (condition_returned DemoCondition.env hass
           (DemoCondition.config "light") false _ "D" H).
Defined.

End MoreInstances.
